(** * lib/launcher/launcher.go: the flag store and the process supervisor

    A shallow embedding of the [Launcher] of package [launcher]: its flag
    store ([Set], [Get], [Has], [GetFlags], [Append], [Delete], [FormatArgs])
    and its process life cycle ([Launch], [getURL], [Kill]).

    Go slices are modelled with their backing arrays, so that the in-place
    write of [FormatArgs] is visible through every slice that shares the
    array.  Calls that leave the package (the operating system, the Go
    runtime, package [leakless], the URL parser, the browser fetcher) are
    requests of a small free monad; an environment answers them. *)

From Stdlib Require Import ZArith String Ascii List.
From stdpp Require Import base tactics option list sorting gmap strings pretty.

Abbreviation Flag := string (only parsing).

(** ** Go values *)

(** The value carried by a Go panic. *)
Inductive panic_val : Type :=
| IndexOutOfRange
| PanicError (e : string)
| PanicFlagCheck (name : string)
| DuplicatedConnection.

(** A Go call either returns or panics. *)
Inductive outcome (A : Type) : Type :=
| Ret (a : A)
| Panic (p : panic_val).
Arguments Ret {A} a.
Arguments Panic {A} p.

(** Values of Go's [error] interface that [Launch] can return; [None] of
    [option error_val] is the nil error. *)
Inductive error_val : Type :=
| ErrAlreadyLaunched
| errors_New (msg : string)
| ExtError (e : string).

(** ** Slices of strings

    A non-nil [[]string] is a window [s_off, s_off + s_len) into the backing
    array [s_arr], which it may extend up to [s_cap] elements; the nil slice
    is [None]. *)
Record slice : Type := Slice {
  s_arr : nat;
  s_off : nat;
  s_len : nat;
  s_cap : nat
}.

Abbreviation mem := (gmap nat (list string)).

Definition array (h : mem) (a : nat) : list string := default [] (h !! a).

Definition slen (v : option slice) : nat :=
  match v with Some s => s_len s | None => 0 end.

Definition scap (v : option slice) : nat :=
  match v with Some s => s_cap s | None => 0 end.

(** The elements seen through a slice. *)
Definition elems (h : mem) (v : option slice) : list string :=
  match v with
  | None => []
  | Some s => take (s_len s) (drop (s_off s) (array h (s_arr s)))
  end.

(** [v[i]] *)
Definition index (h : mem) (v : option slice) (i : nat) : outcome string :=
  match elems h v !! i with
  | Some x => Ret x
  | None => Panic IndexOutOfRange
  end.

(** [v[i] = x] *)
Definition store (h : mem) (v : option slice) (i : nat) (x : string) : outcome unit * mem :=
  match v with
  | Some s =>
      if decide (i < length (elems h v)) then
        (Ret tt, <[s_arr s := <[s_off s + i := x]> (array h (s_arr s))]> h)
      else (Panic IndexOutOfRange, h)
  | None => (Panic IndexOutOfRange, h)
  end.

(** Overwrite [xs] into [l] from position [i] on. *)
Definition write_at (i : nat) (xs l : list string) : list string :=
  take i l ++ xs ++ drop (i + length xs) l.

Section go_append.
(** How far the runtime over-allocates when a slice grows is not fixed by
    the language; [growcap old needed] is the runtime's proposal. *)
Variable growcap : nat -> nat -> nat.

(** [append(v, xs...)]: in place while the capacity suffices, otherwise into
    a fresh, sufficiently large array. *)
Definition go_append (h : mem) (v : option slice) (xs : list string) : option slice * mem :=
  let n := slen v + length xs in
  if decide (n <= scap v) then
    match v with
    | None => (None, h)
    | Some s =>
        (Some (Slice (s_arr s) (s_off s) n (s_cap s)),
         <[s_arr s := write_at (s_off s + s_len s) xs (array h (s_arr s))]> h)
    end
  else
    let c := Nat.max n (growcap (scap v) n) in
    let a := fresh (dom h) in
    (Some (Slice a 0 n c), <[a := elems h v ++ xs ++ replicate (c - n) ""%string]> h).
End go_append.

(** A slice literal [[]string{x1, ..., xn}] in a fresh array; the
    allocation a caller performs for the variadic arguments of [Set]. *)
Definition go_literal (h : mem) (xs : list string) : slice * mem :=
  let a := fresh (dom h) in
  (Slice a 0 (length xs) (length xs), <[a := xs]> h).

(** [s] reaches cell [i] of array [a]. *)
Definition covers (s : slice) (a i : nat) : Prop :=
  s_arr s = a /\ s_off s <= i < s_off s + s_len s.

(** The arrays after [a[i] = x]. *)
Definition poke (h : mem) (a i : nat) (x : string) : mem :=
  <[a := <[i := x]> (array h a)]> h.

(** ** Package [flags]

    The package is a dependency of the launcher: the launcher uses its flag
    names, the name check and the name normalisation, whatever they are. *)
Module flags.
Class Pkg : Type := {
  Arguments : Flag;
  UserDataDir : Flag;
  Leakless : Flag;
  RemoteDebuggingPort : Flag;
  Bin : Flag;
  Preferences : Flag;
  ProfileDir : Flag;
  WorkingDir : Flag;
  Env : Flag;
  (** [name.Check()] panics exactly when this is [false]. *)
  Check : Flag -> bool;
  NormalizeFlag : Flag -> Flag
}.
End flags.

(** ** The launcher *)

Record Launcher : Type := mkLauncher {
  Flags : gmap string (option slice);
  pid : Z;
  isLaunched : Z;
  (** the backing arrays of the slices reachable from [Flags] *)
  arrays : mem
}.

Definition with_Flags (f : gmap string (option slice)) (l : Launcher) : Launcher :=
  mkLauncher f (pid l) (isLaunched l) (arrays l).
Definition with_pid (p : Z) (l : Launcher) : Launcher :=
  mkLauncher (Flags l) p (isLaunched l) (arrays l).
Definition with_isLaunched (n : Z) (l : Launcher) : Launcher :=
  mkLauncher (Flags l) (pid l) n (arrays l).
Definition with_arrays (h : mem) (l : Launcher) : Launcher :=
  mkLauncher (Flags l) (pid l) (isLaunched l) h.

(** A method of [*Launcher] that calls nothing outside the package. *)
Definition method (A : Type) : Type := Launcher -> outcome A * Launcher.

Section flag_store.
Context `{flags.Pkg}.
Variable growcap : nat -> nat -> nat.

Definition Set_ (name : Flag) (values : option slice) : method unit := fun l =>
  if flags.Check name
  then (Ret tt, with_Flags (<[flags.NormalizeFlag name := values]> (Flags l)) l)
  else (Panic (PanicFlagCheck name), l).

Definition GetFlags (name : Flag) : method (option slice * bool) := fun l =>
  match Flags l !! flags.NormalizeFlag name with
  | Some flag => (Ret (flag, true), l)
  | None => (Ret (None, false), l)
  end.

Definition Get (name : Flag) : method string := fun l =>
  match GetFlags name l with
  | (Ret (list, true), l1) => (index (arrays l1) list 0, l1)
  | (Ret (_, false), l1) => (Ret ""%string, l1)
  | (Panic p, l1) => (Panic p, l1)
  end.

Definition Has (name : Flag) : method bool := fun l =>
  match GetFlags name l with
  | (Ret (_, has), l1) => (Ret has, l1)
  | (Panic p, l1) => (Panic p, l1)
  end.

Definition Append (name : Flag) (values : option slice) : method unit := fun l =>
  match GetFlags name l with
  | (Ret (flags0, has), l1) =>
      let flags1 := if has then flags0 else Some (Slice 0 0 0 0) in
      let '(vs, h) := go_append growcap (arrays l1) flags1 (elems (arrays l1) values) in
      Set_ name vs (with_arrays h l1)
  | (Panic p, l1) => (Panic p, l1)
  end.

Definition Delete (name : Flag) : method unit := fun l =>
  (Ret tt, with_Flags (delete (flags.NormalizeFlag name) (Flags l)) l).

End flag_store.

(** ** Calls that leave the package

    Each request is one call of [Launch], [FormatArgs] or [Kill] into the
    operating system, the Go runtime or another package; [Resp] is the type
    of what the call gives back. *)

Inductive result (A : Type) : Type :=
| Ok (a : A)
| Err (e : string).
Arguments Ok {A} a.
Arguments Err {A} e.

(** The [*exec.Cmd] that [Launch] builds: [leakless.New().Command] or
    [exec.Command], then the fields [setupCmd] assigns. *)
Record Cmd : Type := mkCmd {
  cmd_leakless : bool;
  cmd_path : string;
  cmd_args : list string;
  cmd_dir : string;
  cmd_env : option (list string)
}.

(** The case of the [select] in [getURL] that is taken. *)
Inductive fired : Type :=
| ctx_Done
| parser_URL (u : string)
| exit_closed.

Inductive Req : Type :=
| CtxCancel                                   (* l.ctxCancel() *)
| BrowserGet                                  (* l.browser.Get() *)
| FilepathAbs (path : string)                 (* filepath.Abs(path) *)
| OutputFile (elem : list string) (content : string)
                                              (* utils.OutputFile(filepath.Join(elem...), content) *)
| RangeFlags                                  (* the order in which range visits l.Flags *)
| LeaklessSupport                             (* leakless.Support() *)
| ResolveURL (u : string)                     (* ResolveURL(u) *)
| OsSetupCmd                                  (* l.osSetupCmd(cmd) *)
| CmdStart (c : Cmd)                          (* cmd.Start() *)
| LeaklessPid                                 (* <-ll.Pid() *)
| LeaklessErr                                 (* ll.Err() *)
| GoWaitExit                                  (* go func() { cmd.Wait(); close(l.exit) }() *)
| SelectURL                                   (* the select of getURL *)
| CtxErr                                      (* l.ctx.Err(), after Done *)
| ParserErr                                   (* l.parser.Err() *)
| Sleep (sec : Z)                             (* utils.Sleep(sec) *)
| KillGroup (p : Z)                           (* killGroup(p) *)
| FindProcess (p : Z)                         (* os.FindProcess(p) *)
| ProcessKill (p : Z).                        (* p.Kill() on the handle found *)

Definition Resp (r : Req) : Type :=
  match r with
  | CtxCancel => unit
  | BrowserGet => string * option string
  | FilepathAbs _ => result string
  | OutputFile _ _ => option string
  | RangeFlags => list nat
  | LeaklessSupport => bool
  | ResolveURL _ => string * option string
  | OsSetupCmd => unit
  | CmdStart _ => result Z
  | LeaklessPid => Z
  | LeaklessErr => string
  | GoWaitExit => unit
  | SelectURL => fired
  | CtxErr => string
  | ParserErr => option string
  | Sleep _ => unit
  | KillGroup _ => unit
  | FindProcess _ => bool
  | ProcessKill _ => unit
  end.

(** ** Programs

    A program is a tree of steps: a step on the launcher's memory, or a
    request whose answer selects the rest of the program. *)
Inductive Prog (A : Type) : Type :=
| Done (a : A)
| Mem {R : Type} (m : Launcher -> R * Launcher) (k : R -> Prog A)
| Call (r : Req) (k : Resp r -> Prog A).
Arguments Done {A} a.
Arguments Mem {A R} m k.
Arguments Call {A} r k.

Fixpoint bind {A B : Type} (p : Prog A) (f : A -> Prog B) : Prog B :=
  match p with
  | Done a => f a
  | Mem m k => Mem m (fun r => bind (k r) f)
  | Call r k => Call r (fun x => bind (k x) f)
  end.

(** Go code: a panic skips what follows. *)
Abbreviation go A := (Prog (outcome A)).

Definition ret {A : Type} (a : A) : go A := Done (Ret a).
Definition panic {A : Type} (p : panic_val) : go A := Done (Panic p).
Definition lift {A : Type} (m : method A) : go A := Mem m Done.
Definition call (r : Req) : go (Resp r) := Call r (fun x => Done (Ret x)).

Definition gbind {A B : Type} (p : go A) (f : A -> go B) : go B :=
  bind p (fun o => match o with Ret a => f a | Panic v => Done (Panic v) end).

(** [defer d] in front of [body]: [d] runs when [body] returns or panics. *)
Definition defer {A : Type} (d : go unit) (body : go A) : go A :=
  bind body (fun o => bind d (fun _ => Done o)).

Declare Scope go_scope.
Delimit Scope go_scope with go.
Notation "x <- p ;; q" := (gbind p (fun x => q))
  (at level 100, p at next level, right associativity) : go_scope.

(** The environment answers a request knowing the requests made so far. *)
Definition Environment : Type := list Req -> forall r : Req, Resp r.

Fixpoint run {A : Type} (env : Environment) (p : Prog A) (l : Launcher) (tr : list Req)
  : A * Launcher * list Req :=
  match p with
  | Done a => (a, l, tr)
  | Mem m k => run env (k (m l).1) (m l).2 tr
  | Call r k => run env (k (env tr r)) l (tr ++ [r])
  end.

(** The order of a [range] over a map is the runtime's choice: [shuffle]
    draws the entries one by one, each draw picked by the next number of the
    seed. *)
Fixpoint shuffle {A : Type} (seed : list nat) (l : list A) : list A :=
  match seed with
  | [] => l
  | n :: seed' =>
      let i := n mod length l in
      match l !! i with
      | Some x => x :: shuffle seed' (delete i l)
      | None => l
      end
  end.

(** ** [FormatArgs], [Launch], [Kill] *)

Definition sort_Strings : list string -> list string := merge_sort String.le.

(** ["--" + k], then ["=" + strings.Join(v, ",")] unless [v] is nil. *)
Definition format_flag (h : mem) (k : string) (v : option slice) : string :=
  let str := ("--" +:+ k)%string in
  match v with
  | Some _ => (str +:+ "=" +:+ String.concat "," (elems h v))%string
  | None => str
  end.

(** What [Launch] returns: the URL and the error. *)
Abbreviation returned := (string * option error_val)%type.

Section launcher.
Context `{flags.Pkg}.
Local Open Scope go_scope.

(** [utils.E(err)] *)
Definition utils_E {A : Type} (r : result A) : go A :=
  match r with
  | Ok a => ret a
  | Err e => panic (PanicError e)
  end.

(** The body of the loop [for k, v := range l.Flags] of [FormatArgs], over
    the entries in the order they are visited. *)
Fixpoint FormatArgs_range (kvs : list (string * option slice)) (execArgs : list string)
  : go (list string) :=
  match kvs with
  | [] => ret execArgs
  | (k, v) :: rest =>
      if decide (k = flags.Arguments) then FormatArgs_range rest execArgs
      else if String.prefix "rod-" k then FormatArgs_range rest execArgs
      else
        _ <- (if decide (k = flags.UserDataDir) then
                v0 <- lift (fun l => (index (arrays l) v 0, l)) ;;
                r <- call (FilepathAbs v0) ;;
                abs <- utils_E r ;;
                lift (fun l => let '(o, h) := store (arrays l) v 0 abs in (o, with_arrays h l))
              else ret tt) ;;
        str <- lift (fun l => (Ret (format_flag (arrays l) k v), l)) ;;
        FormatArgs_range rest (execArgs ++ [str])
  end.

Definition FormatArgs : go (list string) :=
  seed <- call RangeFlags ;;
  kvs <- lift (fun l => (Ret (shuffle seed (map_to_list (Flags l))), l)) ;;
  execArgs <- FormatArgs_range kvs [] ;;
  args <- lift (fun l => (Ret (elems (arrays l) (default None (Flags l !! flags.Arguments))), l)) ;;
  ret (sort_Strings (execArgs ++ args)).

(** [atomic.CompareAndSwapInt32(&l.isLaunched, old, new)] *)
Definition CompareAndSwap_isLaunched (old new : Z) (l : Launcher) : bool * Launcher :=
  if decide (isLaunched l = old) then (true, with_isLaunched new l) else (false, l).

Definition hasLaunched : method bool := fun l =>
  let '(swapped, l1) := CompareAndSwap_isLaunched 0 1 l in (Ret (negb swapped), l1).

Definition PID : method Z := fun l => (Ret (pid l), l).

Definition getBin : go (string * option error_val) :=
  bin <- lift (Get flags.Bin) ;;
  if decide (bin = ""%string) then
    r <- call BrowserGet ;;
    ret (r.1, ExtError <$> r.2)
  else ret (bin, None).

Definition setupUserPreferences : go unit :=
  userDir <- lift (Get flags.UserDataDir) ;;
  pref <- lift (Get flags.Preferences) ;;
  if decide (userDir = ""%string \/ pref = ""%string) then ret tt
  else
    r <- call (FilepathAbs userDir) ;;
    userDir <- utils_E r ;;
    profile <- lift (Get flags.ProfileDir) ;;
    let profile := if decide (profile = ""%string) then "Default"%string else profile in
    e <- call (OutputFile [userDir; profile; "Preferences"%string] pref) ;;
    match e with
    | Some e => panic (PanicError e)
    | None => ret tt
    end.

(** [cmd.Stdout] and [cmd.Stderr] are writers into the logger and the
    parser; what the parser reads comes back through [SelectURL]. *)
Definition setupCmd (cmd : Cmd) : go Cmd :=
  _ <- call OsSetupCmd ;;
  dir <- lift (Get flags.WorkingDir) ;;
  env <- lift (GetFlags flags.Env) ;;
  envl <- lift (fun l => (Ret (match env.1 with
                               | Some _ => Some (elems (arrays l) env.1)
                               | None => None
                               end), l)) ;;
  ret (mkCmd (cmd_leakless cmd) (cmd_path cmd) (cmd_args cmd) dir envl).

Definition getURL : go (string * option error_val) :=
  f <- call SelectURL ;;
  match f with
  | ctx_Done => e <- call CtxErr ;; ret (""%string, Some (ExtError e))
  | parser_URL u => ret (u, None)
  | exit_closed => e <- call ParserErr ;; ret (""%string, ExtError <$> e)
  end.

Definition Kill : go unit :=
  _ <- call (Sleep 1) ;;
  p <- lift PID ;;
  if decide (p = 0%Z) then ret tt
  else
    p <- lift PID ;;
    _ <- call (KillGroup p) ;;
    p <- lift PID ;;
    found <- call (FindProcess p) ;;
    if (found : bool) then _ <- call (ProcessKill p) ;; ret tt
    else ret tt.

(** [Launch] is cut where it can return: each part either returns from
    [Launch] ([inl], with the values returned) or hands on to the next part
    ([inr]). *)

(** From [l.getBin()] to [l.FormatArgs()]. *)
Definition Launch_prepare : go (returned + string * list string) :=
  b <- getBin ;;
  match b.2 with
  | Some err => ret (inl (""%string, Some err))
  | None =>
      _ <- setupUserPreferences ;;
      args <- FormatArgs ;;
      ret (inr (b.1, args))
  end.

(** The choice of the command: through leakless, or directly after a
    reconnection attempt.  [cmd_leakless] of the command tells whether
    [ll] is non-nil. *)
Definition Launch_command (bin : string) (args : list string) : go (returned + Cmd) :=
  has <- lift (Has flags.Leakless) ;;
  supported <- (if (has : bool) then call LeaklessSupport else ret false) ;;
  if (supported : bool) then ret (inr (mkCmd true bin args ""%string None))
  else
    port <- lift (Get flags.RemoteDebuggingPort) ;;
    r <- call (ResolveURL port) ;;
    match r.2 with
    | None => ret (inl (r.1, None))
    | Some _ => ret (inr (mkCmd false bin args ""%string None))
    end.

(** From [l.setupCmd(cmd)] to the assignment of [l.pid]. *)
Definition Launch_start (cmd : Cmd) : go (returned + unit) :=
  cmd <- setupCmd cmd ;;
  started <- call (CmdStart cmd) ;;
  match started with
  | Err e => ret (inl (""%string, Some (ExtError e)))
  | Ok process_pid =>
      if cmd_leakless cmd then
        p <- call LeaklessPid ;;
        _ <- lift (fun l => (Ret tt, with_pid p l)) ;;
        e <- call LeaklessErr ;;
        if decide (e = ""%string) then ret (inr tt)
        else
          e <- call LeaklessErr ;;
          ret (inl (""%string, Some (errors_New e)))
      else
        _ <- lift (fun l => (Ret tt, with_pid process_pid l)) ;;
        ret (inr tt)
  end.

(** From the [go] statement to the end. *)
Definition Launch_await : go returned :=
  _ <- call GoWaitExit ;;
  u <- getURL ;;
  match u.2 with
  | Some err => _ <- Kill ;; ret (""%string, Some err)
  | None =>
      r <- call (ResolveURL u.1) ;;
      ret (r.1, ExtError <$> r.2)
  end.

(** The three parts up to the started process. *)
Definition Launch_spawn : go (returned + unit) :=
  s <- Launch_prepare ;;
  match s with
  | inl r => ret (inl r)
  | inr (bin, args) =>
      s <- Launch_command bin args ;;
      match s with
      | inl r => ret (inl r)
      | inr cmd => Launch_start cmd
      end
  end.

(** What [Launch] does once the latch is passed, without the deferred
    call. *)
Definition Launch_body : go returned :=
  s <- Launch_spawn ;;
  match s with
  | inl r => ret r
  | inr _ => Launch_await
  end.

Definition Launch : go returned :=
  launched <- lift hasLaunched ;;
  if (launched : bool) then ret (""%string, Some ErrAlreadyLaunched)
  else defer (call CtxCancel) Launch_body.

End launcher.

(** ** Notions the properties are stated with *)

(** Every step of the program on the launcher's memory leaves
    [l.isLaunched] as it is. *)
Fixpoint keeps_latch {A : Type} (p : Prog A) : Prop :=
  match p with
  | Done _ => True
  | Mem m k => (forall l, isLaunched (m l).2 = isLaunched l) /\ forall r, keeps_latch (k r)
  | Call r k => forall x, keeps_latch (k x)
  end.

(** Calls of [Launch] running concurrently on one launcher: each thread
    has the requests it has made and the program it has left; a step of
    the pool is one step of one thread, on the shared launcher. *)
Abbreviation thread A := (list Req * Prog A)%type.

Definition thread_step {A : Type} (l : Launcher) (t : thread A) (l' : Launcher) (t' : thread A)
  : Prop :=
  match t.2 with
  | Done _ => False
  | Mem m k => l' = (m l).2 /\ t' = (t.1, k (m l).1)
  | Call r k => l' = l /\ exists x, t' = (t.1 ++ [r], k x)
  end.

Inductive pool_step {A : Type} : Launcher * list (thread A) -> Launcher * list (thread A) -> Prop :=
| pool_step_thread l l' ts i t t' :
    ts !! i = Some t -> thread_step l t l' t' ->
    pool_step (l, ts) (l', <[i := t']> ts).

Section notions.
Context `{flags.Pkg}.

(** A flag that is passed on the command line as a flag. *)
Definition public (k : string) : bool :=
  bool_decide (k <> flags.Arguments) && negb (String.prefix "rod-" k).

Definition emitted (h : mem) (kvs : list (string * option slice)) : list string :=
  (fun kv => format_flag h kv.1 kv.2) <$> filter (fun kv => public kv.1 = true) kvs.

(** The flag block and the positional arguments of a launcher. *)
Definition flag_block (l : Launcher) : list string :=
  emitted (arrays l) (map_to_list (Flags l)).

Definition positional (l : Launcher) : list string :=
  elems (arrays l) (default None (Flags l !! flags.Arguments)).

Definition formatted (l : Launcher) : list string :=
  sort_Strings (flag_block l ++ positional l).

(** The argument list as the specification words it: the flag block
    sorted, then the positional arguments in their own order. *)
Definition FormatArgs_as_stated (l : Launcher) : list string :=
  sort_Strings (flag_block l) ++ positional l.

(** The launcher after [v[0] = abs]. *)
Definition absolutized (abs : string) (v : option slice) (l : Launcher) : Launcher :=
  with_arrays (store (arrays l) v 0 abs).2 l.

(** No other flag's slice reaches the first cell of the slice of
    [flags.UserDataDir]. *)
Definition unshared_with (u : slice) (k : string) (v : option slice) : Prop :=
  k = flags.UserDataDir \/
  match v with
  | Some s => ~ covers s (s_arr u) (s_off u)
  | None => True
  end.

Definition UserDataDir_unshared (l : Launcher) : Prop :=
  match Flags l !! flags.UserDataDir with
  | Some (Some u) => map_Forall (unshared_with u) (Flags l)
  | _ => True
  end.

#[export] Instance unshared_with_dec u k v : Decision (unshared_with u k v).
Proof. unfold unshared_with, covers. destruct v; apply _. Defined.

#[export] Instance UserDataDir_unshared_dec l : Decision (UserDataDir_unshared l).
Proof. unfold UserDataDir_unshared. destruct (Flags l !! flags.UserDataDir) as [[u |] |]; apply _. Defined.

(** [cmd.Env]: the values of [flags.Env], nil when the flag is absent or
    nil. *)
Definition Env_of (l : Launcher) : option (list string) :=
  match (GetFlags flags.Env l).1 with
  | Ret (Some s, _) => Some (elems (arrays l) (Some s))
  | _ => None
  end.

(** A thread that has not started, and one that has been turned away. *)
Definition unstarted : thread (outcome returned) := ([], Launch).
Definition turned_away : thread (outcome returned) :=
  ([], Done (Ret (""%string, Some ErrAlreadyLaunched))).

Definition one_passed (st : Launcher * list (thread (outcome returned))) : Prop :=
  (isLaunched st.1 = 0%Z /\ forall i t, st.2 !! i = Some t -> t = unstarted) \/
  (isLaunched st.1 = 1%Z /\
   exists w, (forall t, st.2 !! w = Some t -> keeps_latch t.2) /\
             forall i t, i <> w -> st.2 !! i = Some t -> t = unstarted \/ t = turned_away).

End notions.

Arguments emitted : simpl never.
Arguments flag_block : simpl never.
Arguments positional : simpl never.
Arguments formatted : simpl never.
Arguments absolutized : simpl never.

(** ** Package [cdp]: the WebSocket transport *)
Module cdp.

(** Modelled from the spec: the type [cdp.WebSocket] (lib/cdp/websocket.go)
    is not under src/, only its test is.  Of a transport instance the
    specification of [Connect] needs one fact: whether [Connect] has been
    called on it. *)
Record WebSocket : Type := mkWebSocket {
  connected : bool
}.

(** The zero value [cdp.WebSocket{}] of the tests. *)
Definition zero : WebSocket := mkWebSocket false.

(** What the server answers to the upgrade request. *)
Inductive handshake : Type :=
| Upgraded
| Refused (status body : string).

(** Modelled from the spec: the method [Connect] of [WebSocket]
    (lib/cdp/websocket.go) is not under src/.  The spec: "Connect is
    one-shot per transport instance: calling it twice must fail (the second
    call panics or returns a programmer-error rather than silently reusing
    or re-handshaking)"; "first call succeeds (or fails per handshake),
    second call is rejected as a programmer error regardless of first
    outcome"; "on handshake failure, the error must surface the HTTP status
    line the remote returned".  The test expects the panic, and the text
    ["websocket bad handshake: 200 OK. "] for a server that answers 200. *)
Definition Connect (server : handshake) (ws : WebSocket) : outcome (option string) * WebSocket :=
  if connected ws then (Panic DuplicatedConnection, ws)
  else
    match server with
    | Upgraded => (Ret None, mkWebSocket true)
    | Refused status body =>
        (Ret (Some ("websocket bad handshake: " +:+ status +:+ ". " +:+ body)%string),
         mkWebSocket true)
    end.

End cdp.

(** ** A concrete flags package and environment, to run the model on

    An instance of the package: leading dashes are dropped from a name, a
    name with [=] is refused.  The flag of the positional arguments is the
    one [StartURL] sets, [""]; the flags kept off the command line have
    names that start with ["rod-"], as [FormatArgs] expects. *)
Module Example.

Fixpoint TrimLeft_dash (s : string) : string :=
  match s with
  | String "-"%char s' => TrimLeft_dash s'
  | _ => s
  end.

Fixpoint contains_eq (s : string) : bool :=
  match s with
  | EmptyString => false
  | String "="%char _ => true
  | String _ s' => contains_eq s'
  end.

#[export] Instance pkg : flags.Pkg := {|
  flags.Arguments := "";
  flags.UserDataDir := "user-data-dir";
  flags.Leakless := "rod-leakless";
  flags.RemoteDebuggingPort := "remote-debugging-port";
  flags.Bin := "rod-bin";
  flags.Preferences := "rod-preferences";
  flags.ProfileDir := "profile-directory";
  flags.WorkingDir := "rod-working-dir";
  flags.Env := "rod-env";
  flags.Check := fun name => negb (contains_eq name);
  flags.NormalizeFlag := TrimLeft_dash
|}.

(** Answers that do not depend on the requests made before. *)
Record Answers : Type := mkAnswers {
  on_BrowserGet : string * option string;
  on_FilepathAbs : string -> result string;
  on_OutputFile : option string;
  on_RangeFlags : list nat;
  on_LeaklessSupport : bool;
  on_ResolveURL : string -> string * option string;
  on_CmdStart : result Z;
  on_LeaklessPid : Z;
  on_LeaklessErr : string;
  on_SelectURL : fired;
  on_CtxErr : string;
  on_ParserErr : option string;
  on_FindProcess : bool
}.

Definition environment (a : Answers) : Environment := fun _ r =>
  match r return Resp r with
  | CtxCancel => tt
  | BrowserGet => on_BrowserGet a
  | FilepathAbs path => on_FilepathAbs a path
  | OutputFile _ _ => on_OutputFile a
  | RangeFlags => on_RangeFlags a
  | LeaklessSupport => on_LeaklessSupport a
  | ResolveURL u => on_ResolveURL a u
  | OsSetupCmd => tt
  | CmdStart _ => on_CmdStart a
  | LeaklessPid => on_LeaklessPid a
  | LeaklessErr => on_LeaklessErr a
  | GoWaitExit => tt
  | SelectURL => on_SelectURL a
  | CtxErr => on_CtxErr a
  | ParserErr => on_ParserErr a
  | Sleep _ => tt
  | KillGroup _ => tt
  | FindProcess _ => on_FindProcess a
  | ProcessKill _ => tt
  end.

(** A browser that starts as process 4242 and announces its URL; nothing
    answers on the port before. *)
Definition ws_url : string := "ws://127.0.0.1:9222/devtools/browser/b".

Definition answers : Answers := {|
  on_BrowserGet := ("/opt/chromium/chrome", None);
  on_FilepathAbs := fun path => Ok ("/cwd/" +:+ path)%string;
  on_OutputFile := None;
  on_RangeFlags := [];
  on_LeaklessSupport := false;
  on_ResolveURL := fun u => if decide (u = ws_url) then (ws_url, None)
                            else (""%string, Some "connection refused"%string);
  on_CmdStart := Ok 4242%Z;
  on_LeaklessPid := 4243%Z;
  on_LeaklessErr := "";
  on_SelectURL := parser_URL ws_url;
  on_CtxErr := "context canceled";
  on_ParserErr := Some "[launcher] Failed to get the debug url"%string;
  on_FindProcess := true
|}.

Definition with_RangeFlags (seed : list nat) (a : Answers) : Answers :=
  mkAnswers (on_BrowserGet a) (on_FilepathAbs a) (on_OutputFile a) seed
    (on_LeaklessSupport a) (on_ResolveURL a) (on_CmdStart a) (on_LeaklessPid a)
    (on_LeaklessErr a) (on_SelectURL a) (on_CtxErr a) (on_ParserErr a) (on_FindProcess a).

Definition with_ResolveURL (f : string -> string * option string) (a : Answers) : Answers :=
  mkAnswers (on_BrowserGet a) (on_FilepathAbs a) (on_OutputFile a) (on_RangeFlags a)
    (on_LeaklessSupport a) f (on_CmdStart a) (on_LeaklessPid a)
    (on_LeaklessErr a) (on_SelectURL a) (on_CtxErr a) (on_ParserErr a) (on_FindProcess a).

Definition with_SelectURL (f : fired) (a : Answers) : Answers :=
  mkAnswers (on_BrowserGet a) (on_FilepathAbs a) (on_OutputFile a) (on_RangeFlags a)
    (on_LeaklessSupport a) (on_ResolveURL a) (on_CmdStart a) (on_LeaklessPid a)
    (on_LeaklessErr a) f (on_CtxErr a) (on_ParserErr a) (on_FindProcess a).

Definition with_FindProcess (found : bool) (a : Answers) : Answers :=
  mkAnswers (on_BrowserGet a) (on_FilepathAbs a) (on_OutputFile a) (on_RangeFlags a)
    (on_LeaklessSupport a) (on_ResolveURL a) (on_CmdStart a) (on_LeaklessPid a)
    (on_LeaklessErr a) (on_SelectURL a) (on_CtxErr a) (on_ParserErr a) found.

(** A launcher whose flags are all given as fresh variadic arguments:
    the slice of each flag is a literal of its own. *)
Definition new_launcher (fl : list (string * option (list string))) : Launcher :=
  foldr (fun kv l =>
           match kv.2 with
           | None => with_Flags (<[kv.1 := None]> (Flags l)) l
           | Some xs =>
               let '(s, h) := go_literal (arrays l) xs in
               mkLauncher (<[kv.1 := Some s]> (Flags l)) (pid l) (isLaunched l) h
           end)
        (mkLauncher ∅ 0 0 ∅) fl.

(** The launcher of the examples: a binary, a debugging port, headless;
    no leakless. *)
Definition l_demo : Launcher :=
  new_launcher [("rod-bin", Some ["chrome"]); ("remote-debugging-port", Some ["9222"]);
                ("headless", None)]%string.

Definition cmd_demo : Cmd :=
  mkCmd false "chrome" ["--headless"; "--remote-debugging-port=9222"]%string "" None.

(** [l_demo] once [Launch] has started the process of [answers]. *)
Definition l_demo_started : Launcher := with_pid 4242 (with_isLaunched 1 l_demo).

(** One slice given to two flags:
    [dir := []string{"data"}; l.Set(flags.UserDataDir, dir...);
     l.Set("disk-cache-dir", dir...)]. *)
Definition shared_launcher : Launcher :=
  let '(dir, h) := go_literal ∅ ["data"%string] in
  let l := mkLauncher ∅ 0 0 h in
  let l := (Set_ "user-data-dir" (Some dir) l).2 in
  (Set_ "disk-cache-dir" (Some dir) l).2.

End Example.

Import Example.

(** * The rest of launcher.go

    The constructors and the setters of the launcher, [MustLaunch] and
    [Cleanup], over the flag store and the programs above. *)

(** ** More names of package [flags] *)
Module flags'.
Class Names : Type := {
  Headless : Flag;
  NoSandbox : Flag;
  ProxyServer : Flag;
  WindowSize : Flag;
  WindowPosition : Flag;
  XVFB : Flag;
  App : Flag
}.
End flags'.

(** ** Package [defaults] and the other variables [New] reads *)
Module defaults.
Record Vars : Type := {
  Dir : string;
  Bin : string;
  Port : string;
  Show : bool;
  Devtools : bool;
  Proxy : string;
  (** the variable [inContainer] of package [launcher] *)
  inContainer : bool
}.
End defaults.

(** A composite literal [map[flags.Flag][]string{k1: v1, ...}]: the entries
    are evaluated in order, each list of values in an array of its own,
    [nil] written as [None]. *)
Definition literal_entry (st : gmap string (option slice) * mem)
    (kv : string * option (list string)) : gmap string (option slice) * mem :=
  match kv.2 with
  | None => (<[kv.1 := None]> st.1, st.2)
  | Some xs => let '(s, h) := go_literal st.2 xs in (<[kv.1 := Some s]> st.1, h)
  end.

Definition map_literal (kvs : list (string * option (list string)))
  : gmap string (option slice) * mem :=
  foldl literal_entry (∅, ∅) kvs.

(** [m1] and then [m2], as in the chain [l.M1(...).M2(...)]: a panic of
    [m1] ends the chain. *)
Definition then_ (m1 m2 : method unit) : method unit := fun l =>
  match m1 l with
  | (Ret _, l1) => m2 l1
  | (Panic p, l1) => (Panic p, l1)
  end.

Section setters.
Context `{flags.Pkg} `{flags'.Names}.

(** A call [l.Set(name, x1, ..., xn)] with the values written out: the
    caller builds the slice of the variadic arguments, nil when there are
    none, before [Set] runs. *)
Definition Set_values (name : Flag) (xs : list string) : method unit := fun l =>
  match xs with
  | [] => Set_ name None l
  | _ =>
      let '(s, h) := go_literal (arrays l) xs in
      Set_ name (Some s) (with_arrays h l)
  end.

Definition Bin (path : string) : method unit := Set_values flags.Bin [path].

Definition Headless (enable : bool) : method unit :=
  if enable then Set_values flags'.Headless [] else Delete flags'.Headless.

Definition HeadlessNew (enable : bool) : method unit :=
  if enable then Set_values flags'.Headless ["new"%string] else Delete flags'.Headless.

Definition NoSandbox (enable : bool) : method unit :=
  if enable then Set_values flags'.NoSandbox [] else Delete flags'.NoSandbox.

(** [args ...string] is handed on as [args...]: the slice itself. *)
Definition XVFB (args : option slice) : method unit := Set_ flags'.XVFB args.

Definition Preferences (pref : string) : method unit := Set_values flags.Preferences [pref].

(** The JSON text [{"plugins":{"always_open_pdf_externally": true}}]. *)
Definition always_open_pdf_externally : string :=
  let q := String (ascii_of_nat 34) EmptyString in
  ("{" +:+ q +:+ "plugins" +:+ q +:+ ":{" +:+ q +:+ "always_open_pdf_externally" +:+ q
   +:+ ": true}}")%string.

Definition AlwaysOpenPDFExternally : method unit :=
  Set_values flags.Preferences [always_open_pdf_externally].

Definition Leakless (enable : bool) : method unit :=
  if enable then Set_values flags.Leakless [] else Delete flags.Leakless.

Definition Devtools (autoOpenForTabs : bool) : method unit :=
  if autoOpenForTabs then Set_values "auto-open-devtools-for-tabs" []
  else Delete "auto-open-devtools-for-tabs".

Definition UserDataDir (dir : string) : method unit :=
  if decide (dir = ""%string) then Delete flags.UserDataDir
  else Set_values flags.UserDataDir [dir].

Definition ProfileDir (dir : string) : method unit :=
  if decide (dir = ""%string) then Delete flags.ProfileDir
  else Set_values flags.ProfileDir [dir].

(** [fmt.Sprintf("%d", port)] is the decimal numeral [pretty port]. *)
Definition RemoteDebuggingPort (port : Z) : method unit :=
  Set_values flags.RemoteDebuggingPort [pretty port].

Definition Proxy (host : string) : method unit := Set_values flags'.ProxyServer [host].

Definition WindowSize (x y : Z) : method unit :=
  Set_values flags'.WindowSize [(pretty x +:+ "," +:+ pretty y)%string].

Definition WindowPosition (x y : Z) : method unit :=
  Set_values flags'.WindowPosition [(pretty x +:+ "," +:+ pretty y)%string].

Definition WorkingDir (path : string) : method unit := Set_values flags.WorkingDir [path].

Definition Env (env : option slice) : method unit := Set_ flags.Env env.

Definition StartURL (u : string) : method unit := Set_values "" [u].

End setters.

(** ** [IgnoreCerts]

    [certSPKI] is a helper of the package outside this file; a public key
    is whatever it takes. *)
Inductive IgnoreCerts_error : Type :=
| certSPKI_error (err : string).   (* fmt.Errorf("certSPKI: %w", err) *)

Section IgnoreCerts.
Context `{flags.Pkg}.
Variable growcap : nat -> nat -> nat.
Variable PublicKey : Type.
Variable certSPKI : PublicKey -> result string.

(** [make([]string, 0, n)] *)
Definition go_make (h : mem) (n : nat) : slice * mem :=
  let a := fresh (dom h) in
  (Slice a 0 0 n, <[a := replicate n ""%string]> h).

(** The loop over [pks], with the slice built so far. *)
Fixpoint IgnoreCerts_range (pks : list PublicKey) (spkis : option slice) (h : mem)
  : (IgnoreCerts_error + option slice) * mem :=
  match pks with
  | [] => (inr spkis, h)
  | pk :: rest =>
      match certSPKI pk with
      | Err err => (inl (certSPKI_error err), h)
      | Ok spki =>
          let '(spkis1, h1) := go_append growcap h spkis [spki] in
          IgnoreCerts_range rest spkis1 h1
      end
  end.

Definition IgnoreCerts (pks : list PublicKey) : method (option IgnoreCerts_error) := fun l =>
  let '(spkis, h) := go_make (arrays l) (length pks) in
  match IgnoreCerts_range pks (Some spkis) h with
  | (inl err, h1) => (Ret (Some err), with_arrays h1 l)
  | (inr spkis1, h1) =>
      match Set_ "ignore-certificate-errors-spki-list" spkis1 (with_arrays h1 l) with
      | (Ret _, l1) => (Ret None, l1)
      | (Panic p, l1) => (Panic p, l1)
      end
  end.

End IgnoreCerts.

(** ** [New], [NewUserMode], [NewAppMode] *)

Section constructors.
Context `{flags.Pkg} `{flags'.Names}.

(** The literal of [defaultFlags]; [dir] is the directory chosen for the
    user data. *)
Definition New_literal (d : defaults.Vars) (dir : string)
  : list (string * option (list string)) :=
  [ (flags.Bin, Some [defaults.Bin d]);
    (flags.Leakless, None);
    (flags.UserDataDir, Some [dir]);
    (flags.RemoteDebuggingPort, Some [defaults.Port d]);
    (flags'.Headless, None);
    ("no-first-run", None);
    ("no-startup-window", None);
    ("disable-features", Some ["site-per-process"; "TranslateUI"]);
    ("disable-dev-shm-usage", None);
    ("disable-background-networking", None);
    ("disable-background-timer-throttling", None);
    ("disable-backgrounding-occluded-windows", None);
    ("disable-breakpad", None);
    ("disable-client-side-phishing-detection", None);
    ("disable-component-extensions-with-background-pages", None);
    ("disable-default-apps", None);
    ("disable-hang-monitor", None);
    ("disable-ipc-flooding-protection", None);
    ("disable-popup-blocking", None);
    ("disable-prompt-on-repost", None);
    ("disable-renderer-backgrounding", None);
    ("disable-sync", None);
    ("disable-site-isolation-trials", None);
    ("enable-automation", None);
    ("enable-features", Some ["NetworkService"; "NetworkServiceInProcess"]);
    ("force-color-profile", Some ["srgb"]);
    ("metrics-recording-only", None);
    ("use-mock-keychain", None) ]%string.

(** [New()]: [tmp] is [filepath.Join(DefaultUserDataDirPrefix,
    utils.RandString(8))], used when [defaults.Dir] is empty.  The context,
    the browser fetcher, the parser and the logger of the new launcher are
    behind the requests of [Launch]. *)
Definition New (d : defaults.Vars) (tmp : string) : Launcher :=
  let dir := if decide (defaults.Dir d = ""%string) then tmp else defaults.Dir d in
  let '(defaultFlags, h) := map_literal (New_literal d dir) in
  let defaultFlags :=
    if defaults.Show d then delete flags'.Headless defaultFlags else defaultFlags in
  let defaultFlags :=
    if defaults.Devtools d then <["auto-open-devtools-for-tabs"%string := None]> defaultFlags
    else defaultFlags in
  let defaultFlags :=
    if defaults.inContainer d then <[flags'.NoSandbox := None]> defaultFlags
    else defaultFlags in
  let '(defaultFlags, h) :=
    if decide (defaults.Proxy d <> ""%string)
    then literal_entry (defaultFlags, h) (flags'.ProxyServer, Some [defaults.Proxy d])
    else (defaultFlags, h) in
  mkLauncher defaultFlags 0 0 h.

(** [NewUserMode()]: [bin] is what [LookPath()] found, [""] when it found
    nothing (its second result is dropped). *)
Definition NewUserMode (bin : string) : Launcher :=
  let '(fl, h) := map_literal [ (flags.RemoteDebuggingPort, Some ["37712"%string]);
                                ("no-startup-window"%string, None);
                                (flags.Bin, Some [bin]) ] in
  mkLauncher fl 0 0 h.

(** [NewAppMode(u)]: the chain of setters on [New()]. *)
Definition NewAppMode (d : defaults.Vars) (tmp : string) (u : string)
  : outcome unit * Launcher :=
  then_ (Set_values flags'.App [u])
    (then_ (Set_values flags.Env ["GOOGLE_API_KEY=no"%string])
       (then_ (Headless false)
          (then_ (Delete "no-startup-window") (Delete "enable-automation"))))
    (New d tmp).

End constructors.

(** ** [MustLaunch] and [Cleanup] *)

(** How a [Must] function ends: it returns, it panics with the error it
    was given ([utils.E]), or the function it wraps has panicked. *)
Inductive must (A : Type) : Type :=
| Returned (a : A)
| Panicked_with (err : error_val)
| Panicked (p : panic_val).
Arguments Returned {A} a.
Arguments Panicked_with {A} err.
Arguments Panicked {A} p.


Section MustLaunch_Cleanup.
Context `{flags.Pkg}.

Definition MustLaunch : Prog (must string) :=
  bind Launch (fun o =>
    match o with
    | Ret (u, None) => Done (Returned u)
    | Ret (_, Some err) => Done (Panicked_with err)
    | Panic p => Done (Panicked p)
    end).


End MustLaunch_Cleanup.

(** ** Notions for the properties of [Launch] under every environment *)

(** [wp ok p l tr Q]: from the launcher [l], after the requests [tr], and
    whatever answers fitting [ok] the requests of [p] get, [p] ends with a
    result, a launcher and requests that satisfy [Q]. *)
Fixpoint wp {A : Type} (ok : forall r : Req, Resp r -> Prop) (p : Prog A) (l : Launcher)
    (tr : list Req) (Q : A -> Launcher -> list Req -> Prop) : Prop :=
  match p with
  | Done a => Q a l tr
  | Mem m k => wp ok (k (m l).1) (m l).2 tr Q
  | Call r k => forall x, ok r x -> wp ok (k x) l (tr ++ [r]) Q
  end.

Definition any_answer (r : Req) (x : Resp r) : Prop := True.

(** The file system does what it is asked: [filepath.Abs] finds the
    absolute path and [utils.OutputFile] writes the file. *)
Definition files_succeed (r : Req) : Resp r -> Prop :=
  match r with
  | FilepathAbs _ => fun x => exists abs, x = Ok abs
  | OutputFile _ _ => fun x => x = None
  | _ => fun _ => True
  end.

Definition answers_within (ok : forall r : Req, Resp r -> Prop) (env : Environment) : Prop :=
  forall tr r, ok r (env tr r).

(** The requests that the run of [p] adds to [tr]. *)
Definition requests_of {A : Type} (env : Environment) (p : Prog A) (l : Launcher)
    (tr : list Req) : list Req :=
  drop (length tr) (run env p l tr).2.

(** How many of the requests are of a kind. *)
Definition count (P : Req -> bool) (tr : list Req) : nat := length (List.filter P tr).

Definition is_CtxCancel (r : Req) : bool := match r with CtxCancel => true | _ => false end.
Definition is_CmdStart (r : Req) : bool := match r with CmdStart _ => true | _ => false end.
Definition is_OutputFile (r : Req) : bool := match r with OutputFile _ _ => true | _ => false end.
Definition is_kill (r : Req) : bool :=
  match r with KillGroup _ | ProcessKill _ => true | _ => false end.

(** Requests that do not follow the binary [bin]: a download, or the start
    of another binary. *)
Definition off_Bin (bin : string) (r : Req) : bool :=
  match r with
  | BrowserGet => true
  | CmdStart c => negb (bool_decide (cmd_path c = bin))
  | _ => false
  end.

(** Requests that go through package [leakless]. *)
Definition with_leakless (r : Req) : bool :=
  match r with
  | LeaklessSupport | LeaklessPid | LeaklessErr => true
  | CmdStart c => cmd_leakless c
  | _ => false
  end.

Section Launch_notions.
Context `{flags.Pkg}.


(** [Get name] returns on [l]: the flag is absent or has a first value. *)
Definition valued (name : Flag) (l : Launcher) : Prop :=
  exists x, Get name l = (Ret x, l).

End Launch_notions.

(** ** What [FormatArgs] prints, from the launcher it is called on *)

Section printed_notions.
Context `{flags.Pkg}.

(** The values of the flag [k] as [FormatArgs] prints them: those the
    launcher holds when [FormatArgs] is called, [abs] being the absolute
    path that takes the place of the first value of [flags.UserDataDir]
    ([None] where [FormatArgs] rewrites nothing). *)
Definition printed_values (l : Launcher) (abs : option string) (k : string) (v : option slice)
  : list string :=
  match abs with
  | Some a =>
      if decide (k = flags.UserDataDir) then a :: tail (elems (arrays l) v)
      else elems (arrays l) v
  | None => elems (arrays l) v
  end.

(** [--k] for the nil list, [--k=v1,v2,...] otherwise. *)
Definition printed (l : Launcher) (abs : option string) (k : string) (v : option slice)
  : string :=
  match v with
  | None => ("--" +:+ k)%string
  | Some _ => (("--" +:+ k) +:+ "=" +:+ String.concat "," (printed_values l abs k v))%string
  end.

(** The strings of the passed flags of [l]. *)
Definition printed_flags (l : Launcher) (abs : option string) : list string :=
  (fun kv => printed l abs kv.1 kv.2)
    <$> filter (fun kv => public kv.1 = true) (map_to_list (Flags l)).

End printed_notions.
(** ** Ownership of the backing arrays *)

(** [s] lies within an array of [h]. *)
Definition within (h : mem) (s : slice) : Prop :=
  s_len s <= s_cap s /\
  (s_cap s = 0 \/ (is_Some (h !! s_arr s) /\ s_off s + s_cap s <= length (array h (s_arr s)))).

(** Every slice of [l.Flags] lies within its array, and no two flags
    with room in their slices share an array. *)
Definition owned (l : Launcher) : Prop :=
  (forall k s, Flags l !! k = Some (Some s) -> within (arrays l) s) /\
  (forall k1 k2 s1 s2, k1 <> k2 ->
     Flags l !! k1 = Some (Some s1) -> Flags l !! k2 = Some (Some s2) ->
     s_cap s1 = 0 \/ s_cap s2 = 0 \/ s_arr s1 <> s_arr s2).

(** ** For the examples: the other names, and absolute paths *)

#[global] Instance example_names : flags'.Names := {|
  flags'.Headless := "headless";
  flags'.NoSandbox := "no-sandbox";
  flags'.ProxyServer := "proxy-server";
  flags'.WindowSize := "window-size";
  flags'.WindowPosition := "window-position";
  flags'.XVFB := "rod-xvfb";
  flags'.App := "app"
|}.




(** * Properties *)

(** ** Running programs *)

Lemma run_bind {A B : Type} (env : Environment) (p : Prog A) (f : A -> Prog B) l tr :
  run env (bind p f) l tr =
  run env (f (run env p l tr).1.1) (run env p l tr).1.2 (run env p l tr).2.
Proof.
  revert l tr. induction p as [a | R m k IH | r k IH]; intros l tr; simpl.
  - reflexivity.
  - apply IH.
  - apply IH.
Qed.

Lemma run_gbind {A B : Type} (env : Environment) (p : go A) (f : A -> go B) l tr :
  run env (gbind p f) l tr =
  match (run env p l tr).1.1 with
  | Ret a => run env (f a) (run env p l tr).1.2 (run env p l tr).2
  | Panic v => (Panic v, (run env p l tr).1.2, (run env p l tr).2)
  end.
Proof.
  unfold gbind. rewrite run_bind. destruct (run env p l tr) as [[[a | v] l1] tr1]; reflexivity.
Qed.

Lemma run_call_gbind {B : Type} (env : Environment) (r : Req) (f : Resp r -> go B) l tr :
  run env (gbind (call r) f) l tr = run env (f (env tr r)) l (tr ++ [r]).
Proof. reflexivity. Qed.

Lemma run_lift_gbind {A B : Type} (env : Environment) (m : method A) (f : A -> go B) l tr :
  run env (gbind (lift m) f) l tr
  = match (m l).1 with
    | Ret a => run env (f a) (m l).2 tr
    | Panic v => (Panic v, (m l).2, tr)
    end.
Proof. simpl. by destruct (m l).1. Qed.

Lemma run_defer {A : Type} (env : Environment) (d : go unit) (body : go A) l tr :
  run env (defer d body) l tr =
  ((run env body l tr).1.1,
   (run env d (run env body l tr).1.2 (run env body l tr).2).1.2,
   (run env d (run env body l tr).1.2 (run env body l tr).2).2).
Proof. unfold defer. rewrite run_bind. cbv beta. rewrite run_bind. reflexivity. Qed.

(** ** The flag store *)

Section flag_store_facts.
Context `{flags.Pkg}.
Variable growcap : nat -> nat -> nat.

Lemma Get_first name l v x :
  Flags l !! flags.NormalizeFlag name = Some v ->
  elems (arrays l) v !! 0 = Some x ->
  Get name l = (Ret x, l).
Proof. intros Hv Hx. unfold Get, GetFlags, index. rewrite Hv. simpl. by rewrite Hx. Qed.

Lemma Get_absent name l :
  Flags l !! flags.NormalizeFlag name = None -> Get name l = (Ret ""%string, l).
Proof. intros Hv. unfold Get, GetFlags. by rewrite Hv. Qed.


(** C7: two spellings that normalise to the same name, both accepted by
    the name check, address one and the same entry of [l.Flags]: [GetFlags],
    [Get], [Has], [Delete], [Set] and [Append] do the same with either
    spelling, each of the writers touches the entry under the normalised
    name only, and a [Set] on one spelling after a [Set] on the other leaves
    a single entry, holding the last values. *)
Theorem equivalent_spellings_one_entry (a b : Flag) (l : Launcher) (v w : option slice) :
  flags.NormalizeFlag a = flags.NormalizeFlag b ->
  flags.Check a = true -> flags.Check b = true ->
  GetFlags a l = GetFlags b l /\ Get a l = Get b l /\ Has a l = Has b l /\
  Delete a l = Delete b l /\ Set_ a v l = Set_ b v l /\
  Append growcap a v l = Append growcap b v l /\
  Flags (Set_ a v l).2 = <[flags.NormalizeFlag a := v]> (Flags l) /\
  Flags (Delete a l).2 = delete (flags.NormalizeFlag a) (Flags l) /\
  (exists vs, Flags (Append growcap a v l).2 = <[flags.NormalizeFlag a := vs]> (Flags l)) /\
  Flags (Set_ b w (Set_ a v l).2).2 = <[flags.NormalizeFlag a := w]> (Flags l) /\
  size (Flags (Set_ b w (Set_ a v l).2).2) = size (Flags (Set_ a v l).2) /\
  GetFlags a (Set_ b w (Set_ a v l).2).2 = (Ret (w, true), (Set_ b w (Set_ a v l).2).2).
Proof.
  intros Hab Ha Hb.
  assert (HG : GetFlags a l = GetFlags b l) by (unfold GetFlags; by rewrite Hab).
  assert (HS : forall u l0, Set_ a u l0 = Set_ b u l0)
    by (intros; unfold Set_; by rewrite Ha, Hb, Hab).
  assert (HSa : forall u l0, Set_ a u l0
                = (Ret tt, with_Flags (<[flags.NormalizeFlag a := u]> (Flags l0)) l0))
    by (intros; unfold Set_; by rewrite Ha).
  split_and!.
  - exact HG.
  - unfold Get. by rewrite HG.
  - unfold Has. by rewrite HG.
  - unfold Delete. by rewrite Hab.
  - apply HS.
  - unfold Append. rewrite HG. destruct (GetFlags b l) as [[[fl has] | p] l1]; [| done].
    destruct (go_append _ _ _ _). apply HS.
  - by rewrite HSa.
  - done.
  - unfold Append, GetFlags.
    destruct (Flags l !! flags.NormalizeFlag a);
      destruct (go_append _ _ _ _) as [vs h]; exists vs; by rewrite HSa.
  - rewrite <- HS, !HSa. simpl. apply insert_insert_eq.
  - rewrite <- HS, !HSa. simpl. rewrite insert_insert_eq.
    rewrite !map_size_insert. by destruct (Flags l !! flags.NormalizeFlag a).
  - rewrite <- HS, !HSa. unfold GetFlags. simpl. by rewrite lookup_insert_eq.
Qed.

End flag_store_facts.

(** C7, on the spellings ["--headless"] and ["headless"]. *)
Lemma equivalent_spellings_one_entry_witness :
  Flags (Set_ "headless" None (Set_ "--headless" (Some (Slice 0 0 1 1))
           (mkLauncher ∅ 0 0 {[0 := ["new"%string]]})).2).2
  = {["headless"%string := None]}.
Proof.
  pose proof (equivalent_spellings_one_entry (fun _ n => n) "--headless" "headless"
                (mkLauncher ∅ 0 0 {[0 := ["new"%string]]}) (Some (Slice 0 0 1 1)) None
                eq_refl eq_refl eq_refl) as (_ & _ & _ & _ & _ & _ & _ & _ & _ & Hset & _).
  rewrite Hset. reflexivity.
Defined.

(** C3: [Get] on a flag that is present without values.  [Headless(true)]
    is [l.Set(flags.Headless)], which stores the nil list; [Has] then
    answers true, [GetFlags] gives the nil list, and [Get] panics on
    [list[0]] where the claim has it return without failing. *)
Theorem Get_valueless_flag_panics :
  let l := (Set_ "headless" None (mkLauncher ∅ 0 0 ∅)).2 in
  Has "headless" l = (Ret true, l) /\
  GetFlags "headless" l = (Ret (None, true), l) /\
  Get "headless" l = (Panic IndexOutOfRange, l).
Proof. split_and!; reflexivity. Qed.

(** ** [Kill] *)

Lemma run_Kill (env : Environment) (l : Launcher) (tr : list Req) :
  run env Kill l tr =
  if decide (pid l = 0%Z) then (Ret tt, l, tr ++ [Sleep 1])
  else if env (tr ++ [Sleep 1; KillGroup (pid l)]) (FindProcess (pid l))
       then (Ret tt, l, tr ++ [Sleep 1; KillGroup (pid l); FindProcess (pid l);
                                ProcessKill (pid l)])
       else (Ret tt, l, tr ++ [Sleep 1; KillGroup (pid l); FindProcess (pid l)]).
Proof.
  unfold Kill. cbn. destruct (decide (pid l = 0%Z)) as [Hp | Hp]; cbn.
  - reflexivity.
  - rewrite <- !app_assoc. cbn.
    destruct (env (tr ++ [Sleep 1; KillGroup (pid l)]) (FindProcess (pid l))); cbn.
    + by rewrite <- !app_assoc.
    + reflexivity.
Qed.

(** C4, as the code has it: [Kill] on a launcher whose pid is zero only
    sleeps: it returns, requests no kill and leaves the launcher as it is.
    On a launcher with a pid it kills the process group of the pid first,
    then looks the process up and, if [os.FindProcess] finds it, kills it
    through the handle found; if not, nothing more is killed. *)
Theorem Kill_group_then_process (env : Environment) (l : Launcher) (tr : list Req) :
  (pid l = 0%Z -> run env Kill l tr = (Ret tt, l, tr ++ [Sleep 1])) /\
  (pid l <> 0%Z ->
   run env Kill l tr
   = (Ret tt, l,
      tr ++ Sleep 1 :: KillGroup (pid l) :: FindProcess (pid l)
         :: (if env (tr ++ [Sleep 1; KillGroup (pid l)]) (FindProcess (pid l))
             then [ProcessKill (pid l)] else []))).
Proof.
  split; intros Hp; rewrite run_Kill.
  - by rewrite decide_True.
  - rewrite decide_False by done. by destruct (env _ (FindProcess (pid l))).
Qed.

(** C4 on a launcher that tracks process 7, which is found. *)
Lemma Kill_group_then_process_witness :
  let l := with_pid 7 (new_launcher []) in
  pid l <> 0%Z /\
  run (environment answers) Kill l []
  = (Ret tt, l, [Sleep 1; KillGroup 7; FindProcess 7; ProcessKill 7]).
Proof.
  intros l. split; [done |].
  exact (proj2 (Kill_group_then_process (environment answers) l []) ltac:(done)).
Defined.

(** C4 as stated fails where [os.FindProcess] returns an error: the group
    of process 7 is killed, process 7 itself gets no kill. *)
Lemma Kill_without_process_handle :
  let l := with_pid 7 (new_launcher []) in
  let env := environment (with_FindProcess false answers) in
  pid l <> 0%Z /\
  (run env Kill l []).2 = [Sleep 1; KillGroup 7; FindProcess 7] /\
  ProcessKill 7 ∉ (run env Kill l []).2.
Proof.
  cbv zeta. split; [done |]. split; [reflexivity |].
  vm_compute. intros Hin. repeat (apply elem_of_cons in Hin as [Hin | Hin]; [discriminate |]).
  by apply elem_of_nil in Hin.
Qed.

(** ** The latch of [Launch] *)

Lemma keeps_latch_bind {A B : Type} (p : Prog A) (f : A -> Prog B) :
  keeps_latch p -> (forall a, keeps_latch (f a)) -> keeps_latch (bind p f).
Proof.
  intros Hp Hf. induction p as [a | R m k IH | r k IH]; simpl in *.
  - apply Hf.
  - destruct Hp as [Hm Hk]. split; [exact Hm | intros r; apply IH, Hk].
  - intros x. apply IH, Hp.
Qed.

Lemma keeps_latch_gbind {A B : Type} (p : go A) (f : A -> go B) :
  keeps_latch p -> (forall a, keeps_latch (f a)) -> keeps_latch (gbind p f).
Proof.
  intros Hp Hf. apply keeps_latch_bind; [exact Hp |]. intros [a | v]; [apply Hf | exact I].
Qed.

Lemma keeps_latch_run {A : Type} (env : Environment) (p : Prog A) l tr :
  keeps_latch p -> isLaunched (run env p l tr).1.2 = isLaunched l.
Proof.
  revert l tr. induction p as [a | R m k IH | r k IH]; intros l tr Hp; simpl in *.
  - reflexivity.
  - destruct Hp as [Hm Hk]. rewrite IH by apply Hk. apply Hm.
  - apply IH, Hp.
Qed.

Section latch.
Context `{flags.Pkg}.

Lemma GetFlags_pure name l : (GetFlags name l).2 = l.
Proof. unfold GetFlags. by destruct (Flags l !! _). Qed.

Lemma Get_pure name l : (Get name l).2 = l.
Proof. unfold Get, GetFlags. by destruct (Flags l !! _) as [[s |] |]. Qed.

Lemma Has_pure name l : (Has name l).2 = l.
Proof. unfold Has, GetFlags. by destruct (Flags l !! _). Qed.

Ltac latch :=
  repeat first
    [ exact I
    | apply keeps_latch_gbind; [| intros ?]
    | match goal with
      | |- keeps_latch (lift _) => split; [intros ? | intros ?; exact I]
      | |- keeps_latch (call _) => intros ?; exact I
      | |- keeps_latch (utils_E ?r) => destruct r
      | |- keeps_latch (if ?b then _ else _) => destruct b
      | |- keeps_latch (match ?x with _ => _ end) => destruct x
      | |- isLaunched (Get _ _).2 = _ => by rewrite Get_pure
      | |- isLaunched (GetFlags _ _).2 = _ => by rewrite GetFlags_pure
      | |- isLaunched (Has _ _).2 = _ => by rewrite Has_pure
      | |- isLaunched (let '(_, _) := store ?h ?v ?i ?x in _).2 = _ =>
          by destruct (store h v i x)
      | |- isLaunched _ = _ => reflexivity
      end ].

Lemma keeps_latch_FormatArgs_range kvs execArgs : keeps_latch (FormatArgs_range kvs execArgs).
Proof.
  revert execArgs. induction kvs as [| [k v] rest IH]; intros execArgs; simpl; [exact I |].
  destruct (decide (k = flags.Arguments)); [apply IH |].
  destruct (String.prefix "rod-" k); [apply IH |].
  latch. apply IH.
Qed.

Lemma keeps_latch_FormatArgs : keeps_latch FormatArgs.
Proof. unfold FormatArgs. latch. apply keeps_latch_FormatArgs_range. Qed.

Lemma keeps_latch_Kill : keeps_latch Kill.
Proof. unfold Kill. latch. Qed.

Lemma keeps_latch_Launch_body : keeps_latch Launch_body.
Proof.
  unfold Launch_body, Launch_spawn, Launch_prepare, Launch_command, Launch_start, Launch_await,
    getBin, setupUserPreferences, setupCmd, getURL.
  latch; apply keeps_latch_FormatArgs_range.
Qed.

Lemma keeps_latch_Launch_passed : keeps_latch (defer (call CtxCancel) Launch_body).
Proof.
  apply keeps_latch_bind; [apply keeps_latch_Launch_body |].
  intros o x. exact I.
Qed.

Lemma hasLaunched_first l :
  isLaunched l = 0%Z -> hasLaunched l = (Ret false, with_isLaunched 1 l).
Proof.
  intros Hl. unfold hasLaunched, CompareAndSwap_isLaunched. by rewrite decide_True.
Qed.

Lemma hasLaunched_again l : isLaunched l <> 0%Z -> hasLaunched l = (Ret true, l).
Proof.
  intros Hl. unfold hasLaunched, CompareAndSwap_isLaunched. by rewrite decide_False.
Qed.

Lemma run_Launch_first env l tr :
  isLaunched l = 0%Z ->
  run env Launch l tr = run env (defer (call CtxCancel) Launch_body) (with_isLaunched 1 l) tr.
Proof. intros Hl. unfold Launch. cbn. by rewrite hasLaunched_first. Qed.

Lemma run_Launch_again env l tr :
  isLaunched l <> 0%Z ->
  run env Launch l tr = (Ret (""%string, Some ErrAlreadyLaunched), l, tr).
Proof. intros Hl. unfold Launch. cbn. by rewrite hasLaunched_again. Qed.

Lemma one_passed_step st st' : one_passed st -> pool_step st st' -> one_passed st'.
Proof.
  intros Hinv Hstep. destruct Hstep as [l l' ts i t t' Hi Hstep]. simpl in *.
  destruct Hinv as [[Hl Hall] | [Hl (w & Hw & Hrest)]]; simpl in *.
  - right. rewrite (Hall i t Hi) in Hstep. unfold thread_step in Hstep. simpl in Hstep.
    rewrite hasLaunched_first in Hstep by done. destruct Hstep as [-> ->]. simpl.
    split; [done |]. exists i. split.
    + intros t0 Ht0; simpl in Ht0. rewrite (list_lookup_insert_eq ts i) in Ht0 by (by eapply lookup_lt_Some).
      injection Ht0 as <-. apply keeps_latch_Launch_passed.
    + intros j t0 Hj Ht0; simpl in Ht0. rewrite (list_lookup_insert_ne ts i) in Ht0 by done.
      left. by eapply Hall.
  - right. destruct (decide (i = w)) as [Hiw | Hiw]; [subst i |].
    + assert (isLaunched l' = 1%Z /\ keeps_latch t'.2) as [Hl' Ht'].
      { specialize (Hw t Hi). unfold thread_step in Hstep.
        destruct t as [rs [a | R m k | r k]]; simpl in *.
        - done.
        - destruct Hw as [Hm Hk], Hstep as [-> ->]. simpl. by rewrite Hm.
        - destruct Hstep as [-> [x ->]]. simpl. auto. }
      split; [done |]. exists w. split.
      * intros t0 Ht0; simpl in Ht0. rewrite (list_lookup_insert_eq ts w) in Ht0 by (by eapply lookup_lt_Some).
        by injection Ht0 as <-.
      * intros j t0 Hj Ht0; simpl in Ht0. rewrite (list_lookup_insert_ne ts w) in Ht0 by done. by eapply Hrest.
    + assert (l' = l /\ t' = turned_away) as [-> ->].
      { destruct (Hrest i t Hiw Hi) as [-> | ->]; unfold thread_step in Hstep; simpl in Hstep.
        - rewrite hasLaunched_again in Hstep by (rewrite Hl; done). by destruct Hstep as [-> ->].
        - done. }
      split; [done |]. exists w. split.
      * intros t0 Ht0; simpl in Ht0. rewrite (list_lookup_insert_ne ts i) in Ht0 by done. by apply Hw.
      * intros j t0 Hj Ht0; simpl in Ht0. destruct (decide (i = j)) as [<- | Hij].
        -- rewrite (list_lookup_insert_eq ts i) in Ht0 by (by eapply lookup_lt_Some).
           injection Ht0 as <-. by right.
        -- rewrite (list_lookup_insert_ne ts i) in Ht0 by done. by eapply Hrest.
Qed.

Lemma one_passed_rtc st st' : rtc pool_step st st' -> one_passed st -> one_passed st'.
Proof. induction 1 as [| st1 st2 st3 Hstep _ IH]; [done |]. intros. eauto using one_passed_step. Qed.

(** C2: a [Launch] on a launcher whose latch is set returns
    [ErrAlreadyLaunched], makes no request and leaves the launcher as it
    is; the first [Launch] sets the latch and goes on to the body, which
    never clears it, so that every later [Launch] is turned away, whatever
    the first one met; and of any number of calls of [Launch] running
    concurrently on one launcher, all but at most one are, at every moment,
    either not started or turned away without having made a request. *)
Theorem Launch_exactly_once (env : Environment) (l : Launcher) (tr : list Req) :
  (isLaunched l <> 0%Z ->
   run env Launch l tr = (Ret (""%string, Some ErrAlreadyLaunched), l, tr)) /\
  (isLaunched l = 0%Z ->
   run env Launch l tr
   = run env (defer (call CtxCancel) Launch_body) (with_isLaunched 1 l) tr /\
   isLaunched (run env Launch l tr).1.2 = 1%Z /\
   forall env' tr',
     run env' Launch (run env Launch l tr).1.2 tr'
     = (Ret (""%string, Some ErrAlreadyLaunched), (run env Launch l tr).1.2, tr')) /\
  (isLaunched l = 0%Z ->
   forall n l' ts,
     rtc pool_step (l, replicate n unstarted) (l', ts) ->
     exists w, forall i t, i <> w -> ts !! i = Some t -> t = unstarted \/ t = turned_away).
Proof.
  split_and!.
  - apply run_Launch_again.
  - intros Hl.
    assert (Hlatch : isLaunched (run env Launch l tr).1.2 = 1%Z).
    { rewrite run_Launch_first by done.
      by rewrite keeps_latch_run by apply keeps_latch_Launch_passed. }
    split_and!; [by apply run_Launch_first | done |].
    intros env' tr'. apply run_Launch_again. by rewrite Hlatch.
  - intros Hl n l' ts Hsteps.
    apply one_passed_rtc in Hsteps.
    + destruct Hsteps as [[_ Hall] | [_ (w & _ & Hrest)]]; simpl in *.
      * exists 0. intros i t _ Hi. left. by eapply Hall.
      * by exists w.
    + left. simpl. split; [done |]. intros i t Hi. by apply lookup_replicate in Hi as [-> _].
Qed.

End latch.

(** ** [FormatArgs] *)

Lemma array_poke_eq h a i x : array (poke h a i x) a = <[i := x]> (array h a).
Proof. unfold array, poke. by rewrite lookup_insert_eq. Qed.

Lemma array_poke_ne h a i x a' : a' <> a -> array (poke h a i x) a' = array h a'.
Proof. intros Ha. unfold array, poke. by rewrite lookup_insert_ne. Qed.

Lemma elems_poke_other h s a i x :
  ~ covers s a i -> elems (poke h a i x) (Some s) = elems h (Some s).
Proof.
  intros Hc. unfold elems. destruct (decide (s_arr s = a)) as [Ha | Ha].
  - rewrite Ha, array_poke_eq. destruct (decide (i < s_off s)) as [Hlt | Hge].
    + by rewrite drop_insert_lt.
    + rewrite drop_insert_ge by lia. apply take_insert_ge.
      unfold covers in Hc. lia.
  - by rewrite array_poke_ne.
Qed.

Lemma elems_poke_first h u x :
  elems (poke h (s_arr u) (s_off u) x) (Some u) = <[0 := x]> (elems h (Some u)).
Proof.
  unfold elems. rewrite array_poke_eq, drop_insert_ge, Nat.sub_diag by lia.
  destruct (s_len u) as [| n]; [by rewrite !take_0 |].
  apply take_insert_lt. lia.
Qed.

Lemma elems_poke_covered h s a i x :
  covers s a i -> elems (poke h a i x) (Some s) = <[i - s_off s := x]> (elems h (Some s)).
Proof.
  intros [<- Hi]. unfold elems. rewrite array_poke_eq, drop_insert_ge by lia.
  apply take_insert_lt. lia.
Qed.

Lemma store_first h v x abs :
  elems h v !! 0 = Some x ->
  exists u, v = Some u /\ store h v 0 abs = (Ret tt, poke h (s_arr u) (s_off u) abs).
Proof.
  intros Hx. destruct v as [u |]; [| done]. exists u. split; [done |].
  unfold store. rewrite decide_True by (by eapply lookup_lt_Some).
  by rewrite Nat.add_0_r.
Qed.

Lemma shuffle_Permutation {A : Type} (seed : list nat) (l : list A) : shuffle seed l ≡ₚ l.
Proof.
  revert l. induction seed as [| n seed IH]; intros l; simpl; [done |].
  destruct (l !! (n mod length l)) as [x |] eqn:Hx; [| done].
  rewrite IH. symmetry. by apply delete_Permutation.
Qed.

(** Every order of visit is the shuffle of some seed. *)
Lemma shuffle_complete {A : Type} (l l' : list A) : l' ≡ₚ l -> exists seed, shuffle seed l = l'.
Proof.
  revert l. induction l' as [| x l' IH]; intros l Hp.
  - apply Permutation_nil_l in Hp as ->. by exists [].
  - assert (Hx : x ∈ l) by (rewrite <- Hp; left).
    apply list_elem_of_lookup in Hx as [i Hi].
    destruct (IH (delete i l)) as [seed Hseed].
    { apply (Permutation_cons_inv (a := x)). rewrite Hp. by apply delete_Permutation. }
    exists (i :: seed). simpl.
    rewrite Nat.mod_small by (by eapply lookup_lt_Some). by rewrite Hi, Hseed.
Qed.

(** [sort.Strings] orders by [<] on strings, byte by byte.  The sorted
    arrangement of a list is unique, so the merge sort stands for whatever
    algorithm the library runs. *)
Lemma sort_Strings_unique l l' : Sorted String.le l' -> l' ≡ₚ l -> l' = sort_Strings l.
Proof.
  intros Hs Hp. unfold sort_Strings.
  apply (Sorted_unique String.le); [done | apply Sorted_merge_sort, _ |].
  by rewrite merge_sort_Permutation.
Qed.

Lemma sort_Strings_Permutation l1 l2 : l1 ≡ₚ l2 -> sort_Strings l1 = sort_Strings l2.
Proof.
  intros Hp. unfold sort_Strings.
  apply (Sorted_unique String.le); [apply Sorted_merge_sort, _ .. |].
  by rewrite !merge_sort_Permutation.
Qed.

Section FormatArgs_facts.
Context `{flags.Pkg}.

Lemma emitted_cons h k v kvs :
  emitted h ((k, v) :: kvs)
  = if public k then format_flag h k v :: emitted h kvs else emitted h kvs.
Proof.
  unfold emitted. rewrite filter_cons. simpl.
  destruct (public k); by repeat case_decide.
Qed.

Lemma emitted_app h kvs1 kvs2 : emitted h (kvs1 ++ kvs2) = emitted h kvs1 ++ emitted h kvs2.
Proof. unfold emitted. by rewrite filter_app, fmap_app. Qed.

Lemma format_flag_poke_other h u k v x :
  unshared_with u k v -> k <> flags.UserDataDir ->
  format_flag (poke h (s_arr u) (s_off u) x) k v = format_flag h k v.
Proof.
  intros [Hk | Hv] Hne; [done |]. unfold format_flag. destruct v as [s |]; [| done].
  by rewrite elems_poke_other.
Qed.

Lemma emitted_poke_other h u x kvs :
  Forall (fun kv => unshared_with u kv.1 kv.2 /\ kv.1 <> flags.UserDataDir) kvs ->
  emitted (poke h (s_arr u) (s_off u) x) kvs = emitted h kvs.
Proof.
  induction 1 as [| [k v] kvs [Hu Hne] _ IH]; [done |].
  rewrite !emitted_cons, IH. simpl in *. by rewrite format_flag_poke_other.
Qed.

(** The loop over entries none of which is rewritten, followed by more
    entries. *)
Lemma run_FormatArgs_range_app env pre rest execArgs l tr :
  Forall (fun kv => kv.1 = flags.UserDataDir -> public kv.1 = false) pre ->
  run env (FormatArgs_range (pre ++ rest) execArgs) l tr
  = run env (FormatArgs_range rest (execArgs ++ emitted (arrays l) pre)) l tr.
Proof.
  intros Hpre. revert execArgs.
  induction Hpre as [| [k v] kvs Hk _ IH]; intros execArgs; simpl in *.
  - by rewrite app_nil_r.
  - rewrite emitted_cons. unfold public in *.
    destruct (decide (k = flags.Arguments)) as [Ha | Ha].
    { rewrite bool_decide_eq_false_2 by (by intros ?). apply IH. }
    rewrite (bool_decide_eq_true_2 _ Ha). simpl.
    destruct (String.prefix "rod-" k) eqn:Hp; simpl; [apply IH |].
    destruct (decide (k = flags.UserDataDir)) as [Hu | Hu].
    { specialize (Hk Hu). by rewrite (bool_decide_eq_true_2 _ Ha) in Hk. }
    cbn. rewrite IH. by rewrite <- app_assoc.
Qed.

Lemma run_FormatArgs_range_plain env kvs execArgs l tr :
  Forall (fun kv => kv.1 = flags.UserDataDir -> public kv.1 = false) kvs ->
  run env (FormatArgs_range kvs execArgs) l tr
  = (Ret (execArgs ++ emitted (arrays l) kvs), l, tr).
Proof.
  intros Hkvs. rewrite <- (app_nil_r kvs) at 1.
  by rewrite run_FormatArgs_range_app.
Qed.

(** The loop from the entry of [flags.UserDataDir] on. *)
Lemma run_FormatArgs_range_UserDataDir env u post execArgs l tr :
  public flags.UserDataDir = true ->
  Forall (fun kv => kv.1 <> flags.UserDataDir) post ->
  run env (FormatArgs_range ((flags.UserDataDir, u) :: post) execArgs) l tr
  = match elems (arrays l) u !! 0 with
    | None => (Panic IndexOutOfRange, l, tr)
    | Some x =>
        match env tr (FilepathAbs x) with
        | Err e => (Panic (PanicError e), l, tr ++ [FilepathAbs x])
        | Ok abs =>
            (Ret (execArgs
                  ++ emitted (arrays (absolutized abs u l)) ((flags.UserDataDir, u) :: post)),
             absolutized abs u l, tr ++ [FilepathAbs x])
        end
    end.
Proof.
  intros Hpub Hpost. pose proof Hpub as Hpub'. unfold public in Hpub'.
  apply andb_true_iff in Hpub' as [Ha Hp]. apply bool_decide_eq_true in Ha.
  apply negb_true_iff in Hp. simpl.
  rewrite decide_False, Hp, decide_True by done. cbn. unfold index.
  destruct (elems (arrays l) u !! 0) as [x |] eqn:Hx; cbn; [| done].
  destruct (env tr (FilepathAbs x)) as [abs | e]; cbn; [| done].
  rewrite emitted_cons, Hpub. unfold absolutized.
  destruct (store_first (arrays l) u x abs Hx) as (s & -> & ->). cbn.
  rewrite run_FormatArgs_range_plain.
  - cbn. by rewrite <- app_assoc.
  - eapply Forall_impl; [exact Hpost |]. by intros kv Hne Heq.
Qed.

(** What [FormatArgs] does, when no other flag shares the cell it
    rewrites: it panics on a [flags.UserDataDir] without a first value or
    without an absolute path; otherwise it returns the flags and the
    positional arguments of the launcher it leaves, sorted as one list. *)
Lemma run_FormatArgs env l tr :
  UserDataDir_unshared l ->
  run env FormatArgs l tr
  = match (if public flags.UserDataDir then Flags l !! flags.UserDataDir else None) with
    | None => (Ret (formatted l), l, tr ++ [RangeFlags])
    | Some u =>
        match elems (arrays l) u !! 0 with
        | None => (Panic IndexOutOfRange, l, tr ++ [RangeFlags])
        | Some x =>
            match env (tr ++ [RangeFlags]) (FilepathAbs x) with
            | Err e => (Panic (PanicError e), l, tr ++ [RangeFlags; FilepathAbs x])
            | Ok abs =>
                (Ret (formatted (absolutized abs u l)), absolutized abs u l,
                 tr ++ [RangeFlags; FilepathAbs x])
            end
        end
    end.
Proof.
  intros Hun. unfold FormatArgs. cbn.
  set (kvs := shuffle (env tr RangeFlags) (map_to_list (Flags l))).
  assert (Hperm : kvs ≡ₚ map_to_list (Flags l)) by apply shuffle_Permutation.
  assert (Hin : forall k v, (k, v) ∈ kvs <-> Flags l !! k = Some v).
  { intros k v. rewrite Hperm. apply elem_of_map_to_list. }
  assert (Hnd : NoDup kvs.*1).
  { rewrite Hperm. apply NoDup_fst_map_to_list. }
  rewrite run_gbind.
  destruct (public flags.UserDataDir) eqn:Hpub;
    [destruct (Flags l !! flags.UserDataDir) as [u |] eqn:Hu |].
  - apply Hin in Hu. apply list_elem_of_split in Hu as (pre & post & Hkvs).
    rewrite Hkvs, fmap_app, fmap_cons in Hnd. simpl in Hnd.
    apply NoDup_app in Hnd as (_ & Hpre & Hpost%NoDup_cons).
    destruct Hpost as [Hpost _].
    assert (Hpre' : Forall (fun kv => kv.1 <> flags.UserDataDir) pre).
    { apply Forall_forall. intros [k v] Hkv Hk. simpl in Hk. subst k.
      eapply Hpre; [| left]. apply list_elem_of_fmap. by exists (flags.UserDataDir, v). }
    assert (Hpost' : Forall (fun kv => kv.1 <> flags.UserDataDir) post).
    { apply Forall_forall. intros [k v] Hkv Hk. simpl in Hk. subst k.
      apply Hpost. apply list_elem_of_fmap. by exists (flags.UserDataDir, v). }
    rewrite Hkvs, run_FormatArgs_range_app
      by (eapply Forall_impl; [exact Hpre' |]; by intros kv Hne Heq).
    rewrite run_FormatArgs_range_UserDataDir by done.
    destruct (elems (arrays l) u !! 0) as [x |] eqn:Hx; [| reflexivity].
    destruct (env (tr ++ [RangeFlags]) (FilepathAbs x)) as [abs | e];
      [| cbn; by rewrite <- app_assoc].
    cbn. f_equal; [do 2 f_equal | by rewrite <- app_assoc].
    apply sort_Strings_Permutation. apply Permutation_app; [| done].
    unfold flag_block.
    assert (Hemit : emitted (arrays l) pre = emitted (arrays (absolutized abs u l)) pre).
    { unfold absolutized. destruct (store_first (arrays l) u x abs Hx) as (s & -> & ->).
      simpl. symmetry. apply emitted_poke_other.
      apply Forall_forall. intros [k v] Hkv. split.
      - unfold UserDataDir_unshared in Hun.
        assert (Hs : Flags l !! flags.UserDataDir = Some (Some s)).
        { apply Hin. rewrite Hkvs. apply elem_of_app. right. left. }
        rewrite Hs in Hun. apply (Hun k v). apply Hin. rewrite Hkvs.
        apply elem_of_app. by left.
      - by apply (proj1 (Forall_forall _ _) Hpre' (k, v)). }
    rewrite Hemit, <- emitted_app. unfold emitted.
    apply fmap_Permutation, filter_Permutation.
    by rewrite <- Hkvs.
  - rewrite run_FormatArgs_range_plain.
    + cbn. do 3 f_equal.
      apply sort_Strings_Permutation. apply Permutation_app; [| done].
      unfold flag_block, emitted. by apply fmap_Permutation, filter_Permutation.
    + apply Forall_forall. intros [k v] Hkv Hk. simpl in Hk. subst k.
      apply Hin in Hkv. congruence.
  - rewrite run_FormatArgs_range_plain.
    + cbn. do 3 f_equal.
      apply sort_Strings_Permutation. apply Permutation_app; [| done].
      unfold flag_block, emitted. by apply fmap_Permutation, filter_Permutation.
    + apply Forall_forall. by intros [k v] Hkv ->.
Qed.

Lemma elem_of_flag_block l s :
  s ∈ flag_block l <->
  exists k v, Flags l !! k = Some v /\ public k = true /\ s = format_flag (arrays l) k v.
Proof.
  unfold flag_block, emitted. rewrite list_elem_of_fmap. split.
  - intros ([k v] & -> & Hkv). apply list_elem_of_filter in Hkv as [Hp Hkv].
    apply elem_of_map_to_list in Hkv. by exists k, v.
  - intros (k & v & Hkv & Hp & ->). exists (k, v). split; [done |].
    apply list_elem_of_filter. split; [done |]. by apply elem_of_map_to_list.
Qed.

(** What [FormatArgs] leaves and which requests it makes, on any store,
    shared cells or not. *)
Lemma run_FormatArgs_effect (env : Environment) l tr :
  match (if public flags.UserDataDir then Flags l !! flags.UserDataDir else None) with
  | None => exists args, run env FormatArgs l tr = (Ret args, l, tr ++ [RangeFlags])
  | Some u =>
      match elems (arrays l) u !! 0 with
      | None => run env FormatArgs l tr = (Panic IndexOutOfRange, l, tr ++ [RangeFlags])
      | Some x =>
          match env (tr ++ [RangeFlags]) (FilepathAbs x) with
          | Err e =>
              run env FormatArgs l tr
              = (Panic (PanicError e), l, tr ++ [RangeFlags; FilepathAbs x])
          | Ok abs =>
              exists args,
                run env FormatArgs l tr
                = (Ret args, absolutized abs u l, tr ++ [RangeFlags; FilepathAbs x])
          end
      end
  end.
Proof.
  unfold FormatArgs. cbn.
  set (kvs := shuffle (env tr RangeFlags) (map_to_list (Flags l))).
  assert (Hperm : kvs ≡ₚ map_to_list (Flags l)) by apply shuffle_Permutation.
  assert (Hin : forall k v, (k, v) ∈ kvs <-> Flags l !! k = Some v).
  { intros k v. rewrite Hperm. apply elem_of_map_to_list. }
  assert (Hnd : NoDup kvs.*1).
  { rewrite Hperm. apply NoDup_fst_map_to_list. }
  rewrite run_gbind.
  destruct (public flags.UserDataDir) eqn:Hpub;
    [destruct (Flags l !! flags.UserDataDir) as [u |] eqn:Hu |].
  - apply Hin in Hu. apply list_elem_of_split in Hu as (pre & post & Hkvs).
    rewrite Hkvs, fmap_app, fmap_cons in Hnd. simpl in Hnd.
    apply NoDup_app in Hnd as (_ & Hpre & Hpost%NoDup_cons).
    destruct Hpost as [Hpost _].
    assert (Hpre' : Forall (fun kv => kv.1 <> flags.UserDataDir) pre).
    { apply Forall_forall. intros [k v] Hkv Hk. simpl in Hk. subst k.
      eapply Hpre; [| left]. apply list_elem_of_fmap. by exists (flags.UserDataDir, v). }
    assert (Hpost' : Forall (fun kv => kv.1 <> flags.UserDataDir) post).
    { apply Forall_forall. intros [k v] Hkv Hk. simpl in Hk. subst k.
      apply Hpost. apply list_elem_of_fmap. by exists (flags.UserDataDir, v). }
    rewrite Hkvs, run_FormatArgs_range_app
      by (eapply Forall_impl; [exact Hpre' |]; by intros kv Hne Heq).
    rewrite run_FormatArgs_range_UserDataDir by done.
    destruct (elems (arrays l) u !! 0) as [x |] eqn:Hx; [| reflexivity].
    destruct (env (tr ++ [RangeFlags]) (FilepathAbs x)) as [abs | e];
      [| cbn; by rewrite <- app_assoc].
    cbn. eexists. apply (f_equal2 pair); [reflexivity | by rewrite <- app_assoc].
  - rewrite run_FormatArgs_range_plain.
    + cbn. eexists. reflexivity.
    + apply Forall_forall. intros [k v] Hkv Hk. simpl in Hk. subst k.
      apply Hin in Hkv. congruence.
  - rewrite run_FormatArgs_range_plain.
    + cbn. eexists. reflexivity.
    + apply Forall_forall. by intros [k v] Hkv ->.
Qed.

Lemma elem_of_printed_flags l abs s :
  s ∈ printed_flags l abs <->
  exists k v, Flags l !! k = Some v /\ k <> flags.Arguments /\
              String.prefix "rod-" k = false /\ s = printed l abs k v.
Proof.
  unfold printed_flags. rewrite list_elem_of_fmap. split.
  - intros ([k v] & -> & Hkv). apply list_elem_of_filter in Hkv as [Hp Hkv].
    apply elem_of_map_to_list in Hkv. unfold public in Hp.
    apply andb_true_iff in Hp as [Ha Hp]. apply bool_decide_eq_true in Ha.
    apply negb_true_iff in Hp. by exists k, v.
  - intros (k & v & Hkv & Ha & Hp & ->). exists (k, v). split; [done |].
    apply list_elem_of_filter. split; [| by apply elem_of_map_to_list].
    unfold public. simpl. by rewrite bool_decide_eq_true_2, Hp.
Qed.

Lemma printed_flags_None l : printed_flags l None = flag_block l.
Proof.
  unfold printed_flags, flag_block, emitted. apply list_fmap_ext.
  intros i [k v] _. by destruct v.
Qed.

(** The launcher that [FormatArgs] leaves prints as the one it was called
    on, with the absolute path in the place of the first value of
    [flags.UserDataDir]. *)
Lemma printed_flags_absolutized l u x abs :
  UserDataDir_unshared l ->
  public flags.UserDataDir = true ->
  Flags l !! flags.UserDataDir = Some u ->
  elems (arrays l) u !! 0 = Some x ->
  flag_block (absolutized abs u l) = printed_flags l (Some abs) /\
  positional (absolutized abs u l) = positional l.
Proof.
  intros Hun Hpub Hu Hx. unfold absolutized.
  destruct (store_first (arrays l) u x abs Hx) as (s & -> & ->). cbn [snd].
  unfold UserDataDir_unshared in Hun. rewrite Hu in Hun.
  assert (Hne : flags.UserDataDir <> flags.Arguments).
  { unfold public in Hpub. apply andb_true_iff in Hpub as [Ha _].
    by apply bool_decide_eq_true in Ha. }
  split.
  - unfold flag_block, printed_flags, emitted. cbn [Flags arrays with_arrays].
    apply list_fmap_ext. intros i [k v] Hi.
    apply list_elem_of_lookup_2, list_elem_of_filter in Hi as [_ Hkv].
    apply elem_of_map_to_list in Hkv. cbn [fst snd].
    unfold printed, printed_values, format_flag.
    destruct (decide (k = flags.UserDataDir)) as [-> | Hk].
    + assert (v = Some s) as -> by congruence.
      rewrite elems_poke_first. by destruct (elems (arrays l) (Some s)).
    + destruct v as [v |]; [| done].
      rewrite elems_poke_other; [done |]. by destruct (Hun k (Some v) Hkv).
  - unfold positional. cbn [Flags arrays with_arrays].
    destruct (Flags l !! flags.Arguments) as [[v |] |] eqn:Hv; [| done ..]. simpl.
    apply elems_poke_other. destruct (Hun _ _ Hv) as [? | ?]; [congruence | done].
Qed.

(** C1, as the code has it: when no other flag shares the cell that
    [FormatArgs] rewrites, [FormatArgs] returns unless [flags.UserDataDir]
    is a passed flag without a first value or without an absolute path.
    What it returns is one sorted list, made of the launcher it is called
    on: a string for each flag that is neither the flag of the positional
    arguments nor a ["rod-"] flag, [--name] for the nil list and
    [--name=v1,v2,...] otherwise, from the values the launcher holds,
    except that the first value of a passed [flags.UserDataDir] is its
    absolute path; together with the positional arguments, sorted in with
    the flags.  The launcher it leaves is the one it was called on with
    that first value rewritten, and the list is also what that launcher
    prints. *)
Theorem FormatArgs_sorts_flags_and_positional (env : Environment) l tr :
  UserDataDir_unshared l ->
  let passed := if public flags.UserDataDir then Flags l !! flags.UserDataDir else None in
  match run env FormatArgs l tr with
  | (Ret args, l', _) =>
      exists abs,
        match passed with
        | None => abs = None /\ l' = l
        | Some u =>
            exists x a, elems (arrays l) u !! 0 = Some x /\
                        env (tr ++ [RangeFlags]) (FilepathAbs x) = Ok a /\
                        abs = Some a /\ l' = absolutized a u l
        end /\
        args = sort_Strings (printed_flags l abs ++ positional l) /\
        Sorted String.le args /\
        args ≡ₚ printed_flags l abs ++ positional l /\
        (forall s, s ∈ printed_flags l abs <->
           exists k v, Flags l !! k = Some v /\
                       k <> flags.Arguments /\ String.prefix "rod-" k = false /\
                       s = printed l abs k v) /\
        args = sort_Strings (flag_block l' ++ positional l')
  | (Panic p, l', _) =>
      l' = l /\
      exists u, passed = Some u /\
        match elems (arrays l) u !! 0 with
        | None => p = IndexOutOfRange
        | Some x =>
            exists e, env (tr ++ [RangeFlags]) (FilepathAbs x) = Err e /\ p = PanicError e
        end
  end.
Proof.
  intros Hun passed. subst passed. rewrite run_FormatArgs by done.
  assert (Hsorted : forall X, Sorted String.le (sort_Strings X) /\ sort_Strings X ≡ₚ X).
  { intros X. split; [apply Sorted_merge_sort, _ | apply merge_sort_Permutation]. }
  destruct (public flags.UserDataDir) eqn:Hpub;
    [destruct (Flags l !! flags.UserDataDir) as [u |] eqn:Hu |].
  - destruct (elems (arrays l) u !! 0) as [x |] eqn:Hx.
    + destruct (env (tr ++ [RangeFlags]) (FilepathAbs x)) as [abs | e] eqn:He.
      * destruct (printed_flags_absolutized l u x abs Hun Hpub Hu Hx) as [Hfb Hpos].
        exists (Some abs). split; [by exists x, abs |].
        unfold formatted. rewrite Hfb, Hpos.
        split_and!; [done | apply Hsorted | apply Hsorted | apply elem_of_printed_flags | done].
      * split; [done |]. exists u. split; [done |]. rewrite Hx. by exists e.
    + split; [done |]. exists u. split; [done |]. by rewrite Hx.
  - exists None. split; [done |]. unfold formatted. rewrite printed_flags_None.
    split_and!; [done | apply Hsorted | apply Hsorted | | done].
    intros s. rewrite <- printed_flags_None. apply elem_of_printed_flags.
  - exists None. split; [done |]. unfold formatted. rewrite printed_flags_None.
    split_and!; [done | apply Hsorted | apply Hsorted | | done].
    intros s. rewrite <- printed_flags_None. apply elem_of_printed_flags.
Qed.

(** C10, as the code has it, on any store: when [flags.UserDataDir] is a
    passed flag with a first value and its absolute path is found,
    [FormatArgs] returns and leaves a launcher that differs from the one it
    was called on in one array cell only, the first cell of the slice of
    [flags.UserDataDir], which now holds the absolute path.  The map
    [l.Flags], the pid and the latch are as before.  A slice that does not
    reach that cell, of a flag or not, shows the values it showed; a slice
    that reaches it, as that of a flag set from the same slice does, shows
    the absolute path where it showed the first value of
    [flags.UserDataDir]. *)
Theorem FormatArgs_rewrites_UserDataDir (env : Environment) l tr u x abs :
  public flags.UserDataDir = true ->
  Flags l !! flags.UserDataDir = Some u ->
  elems (arrays l) u !! 0 = Some x ->
  env (tr ++ [RangeFlags]) (FilepathAbs x) = Ok abs ->
  let l' := (run env FormatArgs l tr).1.2 in
  (exists args, (run env FormatArgs l tr).1.1 = Ret args) /\
  elems (arrays l') u = abs :: tail (elems (arrays l) u) /\
  Flags l' = Flags l /\ pid l' = pid l /\ isLaunched l' = isLaunched l /\
  exists s, u = Some s /\
    arrays l' = poke (arrays l) (s_arr s) (s_off s) abs /\
    forall v : slice,
      (~ covers v (s_arr s) (s_off s) ->
       elems (arrays l') (Some v) = elems (arrays l) (Some v)) /\
      (covers v (s_arr s) (s_off s) ->
       elems (arrays l') (Some v) = <[s_off s - s_off v := abs]> (elems (arrays l) (Some v)) /\
       elems (arrays l) (Some v) !! (s_off s - s_off v) = Some x /\
       elems (arrays l') (Some v) !! (s_off s - s_off v) = Some abs).
Proof.
  intros Hpub Hu Hx Habs l'. subst l'.
  pose proof (run_FormatArgs_effect env l tr) as Hrun.
  rewrite Hpub, Hu, Hx, Habs in Hrun. destruct Hrun as [args ->]. cbn [fst snd].
  unfold absolutized.
  destruct (store_first (arrays l) u x abs Hx) as (s & -> & ->).
  cbn [fst snd with_arrays arrays Flags pid isLaunched].
  split_and!; [by exists args | | done .. |].
  - rewrite elems_poke_first. by destruct (elems (arrays l) (Some s)).
  - exists s. split_and!; [done .. |]. intros v. split.
    + apply elems_poke_other.
    + intros Hc. rewrite (elems_poke_covered _ _ _ _ _ Hc).
      assert (Hold : elems (arrays l) (Some v) !! (s_off s - s_off v) = Some x).
      { destruct Hc as [Harr Hoff]. unfold elems in *. rewrite Harr.
        rewrite lookup_take_lt by lia. rewrite lookup_drop.
        replace (s_off v + (s_off s - s_off v)) with (s_off s) by lia.
        apply lookup_take_Some in Hx as [Hx _]. rewrite lookup_drop, Nat.add_0_r in Hx. done. }
      split_and!; [done | done |].
      apply list_lookup_insert_eq. by eapply lookup_lt_Some.
Qed.

End FormatArgs_facts.

(** ** [Launch] after the latch *)

Lemma run_trace_prefix {A : Type} (env : Environment) (p : Prog A) l tr :
  tr `prefix_of` (run env p l tr).2.
Proof.
  revert l tr. induction p as [a | R m k IH | r k IH]; intros l tr; simpl.
  - done.
  - apply IH.
  - etrans; [| apply IH]. by apply prefix_app_r.
Qed.

Section Launch_facts.
Context `{flags.Pkg}.

Lemma run_Kill_launcher env l tr : (run env Kill l tr).1 = (Ret tt, l).
Proof. rewrite run_Kill. by repeat case_match. Qed.

Lemma run_getURL env l tr :
  run env getURL l tr
  = match env tr SelectURL with
    | ctx_Done =>
        (Ret (""%string, Some (ExtError (env (tr ++ [SelectURL]) CtxErr))), l,
         tr ++ [SelectURL; CtxErr])
    | parser_URL u => (Ret (u, None), l, tr ++ [SelectURL])
    | exit_closed =>
        (Ret (""%string, ExtError <$> env (tr ++ [SelectURL]) ParserErr), l,
         tr ++ [SelectURL; ParserErr])
    end.
Proof.
  unfold getURL. cbn. destruct (env tr SelectURL); cbn; by rewrite <- ?app_assoc.
Qed.

Lemma run_Launch_await env l tr :
  run env Launch_await l tr
  = match run env getURL l (tr ++ [GoWaitExit]) with
    | (Ret (_, Some err), l1, tr1) =>
        (Ret (""%string, Some err), (run env Kill l1 tr1).1.2, (run env Kill l1 tr1).2)
    | (Ret (u, None), l1, tr1) =>
        (Ret ((env tr1 (ResolveURL u)).1, ExtError <$> (env tr1 (ResolveURL u)).2), l1,
         tr1 ++ [ResolveURL u])
    | (Panic p, l1, tr1) => (Panic p, l1, tr1)
    end.
Proof.
  unfold Launch_await. rewrite run_call_gbind, run_gbind.
  destruct (run env getURL l (tr ++ [GoWaitExit])) as [[[[u [err |]] | p] l1] tr1];
    cbn [fst snd].
  - rewrite run_gbind. by rewrite run_Kill_launcher.
  - reflexivity.
  - reflexivity.
Qed.

Lemma run_Launch_passed env l tr :
  isLaunched l = 0%Z ->
  run env Launch l tr
  = ((run env Launch_body (with_isLaunched 1 l) tr).1.1,
     (run env Launch_body (with_isLaunched 1 l) tr).1.2,
     (run env Launch_body (with_isLaunched 1 l) tr).2 ++ [CtxCancel]).
Proof. intros Hl. rewrite run_Launch_first by done. by rewrite run_defer. Qed.

Lemma run_Launch_body_spawned env l tr l1 tr1 :
  run env Launch_spawn l tr = (Ret (inr tt), l1, tr1) ->
  run env Launch_body l tr = run env Launch_await l1 tr1.
Proof. intros Hs. unfold Launch_body. rewrite run_gbind. by rewrite Hs. Qed.

Lemma Has_spec name l :
  Has name l = (Ret (bool_decide (is_Some (Flags l !! flags.NormalizeFlag name))), l).
Proof.
  unfold Has, GetFlags. destruct (Flags l !! flags.NormalizeFlag name) as [v |] eqn:Hv.
  - by rewrite bool_decide_eq_true_2.
  - rewrite bool_decide_eq_false_2; [done |]. by intros [? ?].
Qed.

Lemma run_setupCmd env cmd l tr :
  run env (setupCmd cmd) l tr
  = match (Get flags.WorkingDir l).1 with
    | Ret dir =>
        (Ret (mkCmd (cmd_leakless cmd) (cmd_path cmd) (cmd_args cmd) dir (Env_of l)), l,
         tr ++ [OsSetupCmd])
    | Panic p => (Panic p, l, tr ++ [OsSetupCmd])
    end.
Proof.
  unfold setupCmd. rewrite run_call_gbind, run_lift_gbind, Get_pure.
  destruct (Get flags.WorkingDir l).1 as [dir | p]; [| done].
  rewrite run_lift_gbind. unfold Env_of, GetFlags.
  by destruct (Flags l !! flags.NormalizeFlag flags.Env) as [[s |] |].
Qed.

(** The process that a completed [Launch_start] has started, and the pid
    the launcher keeps for it. *)
Lemma Launch_start_started env cmd l tr l1 tr1 :
  run env (Launch_start cmd) l tr = (Ret (inr tt), l1, tr1) ->
  exists cmd' tr0 p,
    env tr0 (CmdStart cmd') = Ok p /\
    cmd_leakless cmd' = cmd_leakless cmd /\ cmd_path cmd' = cmd_path cmd /\
    cmd_args cmd' = cmd_args cmd /\
    pid l1 = (if cmd_leakless cmd' then env (tr0 ++ [CmdStart cmd']) LeaklessPid else p) /\
    (tr0 ++ [CmdStart cmd']) `prefix_of` tr1.
Proof.
  unfold Launch_start. rewrite run_gbind, run_setupCmd.
  destruct (Get flags.WorkingDir l).1 as [dir | ?]; cbn [fst snd]; [| done].
  set (cmd' := mkCmd _ _ _ _ _). rewrite run_call_gbind.
  destruct (env (tr ++ [OsSetupCmd]) (CmdStart cmd')) as [p | e] eqn:Hstart; [| done].
  assert (Hll : cmd_leakless cmd' = cmd_leakless cmd) by done.
  destruct (cmd_leakless cmd') eqn:Hll'.
  - rewrite run_call_gbind, run_lift_gbind. cbn [fst snd]. rewrite run_call_gbind.
    case_decide; [| done].
    intros [= <- <-]. exists cmd', (tr ++ [OsSetupCmd]), p. rewrite Hll'.
    split_and!; try done. by do 2 apply prefix_app_r.
  - rewrite run_lift_gbind. cbn [fst snd].
    intros [= <- <-]. exists cmd', (tr ++ [OsSetupCmd]), p. rewrite Hll'.
    split_and!; done.
Qed.

Lemma Launch_spawn_started env l tr l1 tr1 :
  run env Launch_spawn l tr = (Ret (inr tt), l1, tr1) ->
  exists cmd tr0 p,
    env tr0 (CmdStart cmd) = Ok p /\
    pid l1 = (if cmd_leakless cmd then env (tr0 ++ [CmdStart cmd]) LeaklessPid else p) /\
    (tr0 ++ [CmdStart cmd]) `prefix_of` tr1.
Proof.
  unfold Launch_spawn. rewrite run_gbind.
  destruct (run env Launch_prepare l tr) as [[[[r | [bin args]] | ?] l2] tr2];
    cbn [fst snd]; try done.
  rewrite run_gbind.
  destruct (run env (Launch_command bin args) l2 tr2) as [[[[r | cmd] | ?] l3] tr3];
    cbn [fst snd]; try done.
  intros (cmd' & tr0 & p & Hstart & _ & _ & _ & Hpid & Hpre)%Launch_start_started.
  by exists cmd', tr0, p.
Qed.

Lemma run_Launch_command env bin args l tr :
  run env (Launch_command bin args) l tr
  = let has := bool_decide (is_Some (Flags l !! flags.NormalizeFlag flags.Leakless)) in
    let tr1 := tr ++ (if has then [LeaklessSupport] else []) in
    if has && env tr LeaklessSupport
    then (Ret (inr (mkCmd true bin args ""%string None)), l, tr1)
    else
      match (Get flags.RemoteDebuggingPort l).1 with
      | Ret port =>
          match (env tr1 (ResolveURL port)).2 with
          | None => (Ret (inl ((env tr1 (ResolveURL port)).1, None)), l,
                     tr1 ++ [ResolveURL port])
          | Some _ => (Ret (inr (mkCmd false bin args ""%string None)), l,
                       tr1 ++ [ResolveURL port])
          end
      | Panic p => (Panic p, l, tr1)
      end.
Proof.
  unfold Launch_command. rewrite run_lift_gbind, Has_spec. cbn [fst snd].
  destruct (bool_decide _); cbn [andb].
  - rewrite run_call_gbind.
    destruct (env tr LeaklessSupport); [done |].
    rewrite run_lift_gbind, Get_pure.
    destruct (Get flags.RemoteDebuggingPort l).1 as [port | p]; [| done].
    rewrite run_call_gbind. by destruct (env _ (ResolveURL port)).2.
  - rewrite run_gbind. cbn [run ret fst snd]. rewrite app_nil_r.
    rewrite run_lift_gbind, Get_pure.
    destruct (Get flags.RemoteDebuggingPort l).1 as [port | p]; [| done].
    rewrite run_call_gbind. by destruct (env _ (ResolveURL port)).2.
Qed.

(** C5, as the code has it: once the process is started, what [Launch]
    returns follows the case of the [select] that is taken.  On
    [l.ctx.Done()] it is the error of the context; on a URL from the parser
    it is whatever [ResolveURL] makes of that URL, a URL or an error; on the
    closed [l.exit] it is the error of the parser (and, should the parser
    have none, what [ResolveURL] makes of the empty URL). *)
Theorem Launch_returns_by_first_signal (env : Environment) l tr l1 tr1 :
  isLaunched l = 0%Z ->
  run env Launch_spawn (with_isLaunched 1 l) tr = (Ret (inr tt), l1, tr1) ->
  let tr2 := tr1 ++ [GoWaitExit; SelectURL] in
  (run env Launch l tr).1.1
  = match env (tr1 ++ [GoWaitExit]) SelectURL with
    | ctx_Done => Ret (""%string, Some (ExtError (env tr2 CtxErr)))
    | parser_URL u =>
        Ret ((env tr2 (ResolveURL u)).1, ExtError <$> (env tr2 (ResolveURL u)).2)
    | exit_closed =>
        match env tr2 ParserErr with
        | Some e => Ret (""%string, Some (ExtError e))
        | None =>
            Ret ((env (tr2 ++ [ParserErr]) (ResolveURL "")).1,
                 ExtError <$> (env (tr2 ++ [ParserErr]) (ResolveURL "")).2)
        end
    end.
Proof.
  intros Hl Hs tr2. rewrite run_Launch_passed by done. cbn [fst snd].
  rewrite (run_Launch_body_spawned _ _ _ _ _ Hs), run_Launch_await, run_getURL.
  subst tr2. rewrite <- !app_assoc. cbn [app].
  destruct (env (tr1 ++ [GoWaitExit]) SelectURL) as [| u |]; cbn [fst snd]; try done.
  destruct (env (tr1 ++ [GoWaitExit; SelectURL]) ParserErr); cbn [fst snd fmap option_fmap option_map].
  - done.
  - done.
Qed.

(** C9: when the process is started and [getURL] then returns an error,
    [Launch] runs [Kill] before it returns that error; the pid that [Kill]
    reads is the one the start of the process left in the launcher, so a
    launcher with a pid sleeps, kills the group of that pid and looks the
    process up to kill it. *)
Theorem Launch_kills_when_getURL_fails (env : Environment) l tr l1 tr1 u err tr2 :
  isLaunched l = 0%Z ->
  run env Launch_spawn (with_isLaunched 1 l) tr = (Ret (inr tt), l1, tr1) ->
  run env getURL l1 (tr1 ++ [GoWaitExit]) = (Ret (u, Some err), l1, tr2) ->
  run env Launch l tr
  = (Ret (""%string, Some err), l1, (run env Kill l1 tr2).2 ++ [CtxCancel]) /\
  (exists cmd tr0 p,
     env tr0 (CmdStart cmd) = Ok p /\
     pid l1 = (if cmd_leakless cmd then env (tr0 ++ [CmdStart cmd]) LeaklessPid else p) /\
     (tr0 ++ [CmdStart cmd]) `prefix_of` tr2) /\
  (pid l1 <> 0%Z ->
   exists rest,
     (run env Launch l tr).2
     = tr2 ++ Sleep 1 :: KillGroup (pid l1) :: FindProcess (pid l1) :: rest).
Proof.
  intros Hl Hs Hg.
  assert (HL : run env Launch l tr
               = (Ret (""%string, Some err), l1, (run env Kill l1 tr2).2 ++ [CtxCancel])).
  { rewrite run_Launch_passed by done.
    rewrite (run_Launch_body_spawned _ _ _ _ _ Hs), run_Launch_await, Hg.
    cbn [fst snd]. by rewrite run_Kill_launcher. }
  split_and!.
  - exact HL.
  - destruct (Launch_spawn_started _ _ _ _ _ Hs) as (cmd & tr0 & p & Hstart & Hpid & Hpre).
    exists cmd, tr0, p. split_and!; [done .. |].
    pose proof (run_trace_prefix env getURL l1 (tr1 ++ [GoWaitExit])) as Hpre2.
    rewrite Hg in Hpre2. etrans; [exact Hpre |]. etrans; [| exact Hpre2].
    by apply prefix_app_r.
  - intros Hpid. rewrite HL. cbn [snd]. rewrite run_Kill, decide_False by done.
    destruct (env _ (FindProcess (pid l1))); cbn [snd]; rewrite <- app_assoc; eauto.
Qed.

Lemma run_gbind_trace_prefix {A B : Type} (env : Environment) (p : go A) (f : A -> go B) l tr :
  (run env p l tr).2 `prefix_of` (run env (gbind p f) l tr).2.
Proof.
  rewrite run_gbind. destruct (run env p l tr).1.1; [apply run_trace_prefix | done].
Qed.

Lemma Launch_start_requests env cmd l tr dir :
  Get flags.WorkingDir l = (Ret dir, l) ->
  (tr ++ [OsSetupCmd;
          CmdStart (mkCmd (cmd_leakless cmd) (cmd_path cmd) (cmd_args cmd) dir (Env_of l))])
    `prefix_of` (run env (Launch_start cmd) l tr).2.
Proof.
  intros Hdir. unfold Launch_start. rewrite run_gbind, run_setupCmd, Hdir. cbn [fst snd].
  rewrite run_call_gbind.
  etrans; [| apply run_trace_prefix]. by rewrite <- app_assoc.
Qed.

Lemma run_Launch_body_returned env l tr bin args l2 tr2 r l3 tr3 :
  run env Launch_prepare l tr = (Ret (inr (bin, args)), l2, tr2) ->
  run env (Launch_command bin args) l2 tr2 = (Ret (inl r), l3, tr3) ->
  run env Launch_body l tr = (Ret r, l3, tr3).
Proof.
  intros Hp Hc. unfold Launch_body, Launch_spawn.
  rewrite !run_gbind, Hp. cbn [fst snd]. rewrite !run_gbind, Hc. reflexivity.
Qed.

Lemma run_Launch_body_commanded env l tr bin args l2 tr2 cmd l3 tr3 :
  run env Launch_prepare l tr = (Ret (inr (bin, args)), l2, tr2) ->
  run env (Launch_command bin args) l2 tr2 = (Ret (inr cmd), l3, tr3) ->
  run env Launch_body l tr
  = run env (s <- Launch_start cmd ;;
             match s with
             | inl r => ret r
             | inr _ => Launch_await
             end)%go l3 tr3.
Proof.
  intros Hp Hc. unfold Launch_body, Launch_spawn.
  rewrite !run_gbind, Hp. cbn [fst snd]. rewrite !run_gbind, Hc. cbn [fst snd].
  by destruct (run env (Launch_start cmd) l3 tr3) as [[[[r | []] | p] l4] tr4].
Qed.

End Launch_facts.

Lemma length_elems_poke h a i x v :
  length (elems (poke h a i x) v) = length (elems h v).
Proof.
  destruct v as [s |]; [| done]. unfold elems.
  destruct (decide (s_arr s = a)) as [-> | Hne].
  - rewrite array_poke_eq. by rewrite !length_take, !length_drop, length_insert.
  - by rewrite array_poke_ne.
Qed.

(** ** Programs under every environment *)

Lemma wp_run {A : Type} ok (env : Environment) (p : Prog A) l tr Q :
  answers_within ok env ->
  wp ok p l tr Q -> Q (run env p l tr).1.1 (run env p l tr).1.2 (run env p l tr).2.
Proof.
  intros Henv. revert l tr. induction p as [a | R m k IH | r k IH]; intros l tr Hp; simpl in *.
  - done.
  - by apply IH.
  - by apply IH, Hp.
Qed.

Lemma any_answer_within env : answers_within any_answer env.
Proof. done. Qed.

Lemma wp_mono {A : Type} ok (p : Prog A) l tr (Q Q' : A -> Launcher -> list Req -> Prop) :
  (forall a l' tr', Q a l' tr' -> Q' a l' tr') -> wp ok p l tr Q -> wp ok p l tr Q'.
Proof.
  intros HQ. revert l tr. induction p as [a | R m k IH | r k IH]; intros l tr Hp; simpl in *.
  - by apply HQ.
  - by apply IH.
  - intros x Hx. by apply IH, Hp.
Qed.

Lemma wp_bind {A B : Type} ok (p : Prog A) (f : A -> Prog B) l tr Q :
  wp ok p l tr (fun a l' tr' => wp ok (f a) l' tr' Q) -> wp ok (bind p f) l tr Q.
Proof.
  revert l tr. induction p as [a | R m k IH | r k IH]; intros l tr Hp; simpl in *.
  - done.
  - by apply IH.
  - intros x Hx. by apply IH, Hp.
Qed.

Lemma wp_gbind {A B : Type} ok (p : go A) (f : A -> go B) l tr Q :
  wp ok p l tr (fun o l' tr' => match o with
                                | Ret a => wp ok (f a) l' tr' Q
                                | Panic v => Q (Panic v) l' tr'
                                end) ->
  wp ok (gbind p f) l tr Q.
Proof.
  intros Hp. apply wp_bind. eapply wp_mono; [| exact Hp]. by intros [a | v].
Qed.

Lemma wp_defer {A : Type} ok (d : go unit) (body : go A) l tr Q :
  wp ok body l tr (fun o l' tr' => wp ok d l' tr' (fun _ l'' tr'' => Q o l'' tr'')) ->
  wp ok (defer d body) l tr Q.
Proof.
  intros Hp. apply wp_bind. eapply wp_mono; [| exact Hp].
  intros o l' tr' Hd. apply wp_bind. eapply wp_mono; [| exact Hd]. done.
Qed.

Lemma wp_lift_gbind {A B : Type} ok (m : method A) (f : A -> go B) l tr Q :
  match (m l).1 with
  | Ret a => wp ok (f a) (m l).2 tr Q
  | Panic v => Q (Panic v) (m l).2 tr
  end -> wp ok (gbind (lift m) f) l tr Q.
Proof. simpl. by destruct (m l).1. Qed.

Lemma wp_call_gbind {B : Type} ok (r : Req) (f : Resp r -> go B) l tr Q :
  (forall x, ok r x -> wp ok (f x) l (tr ++ [r]) Q) -> wp ok (gbind (call r) f) l tr Q.
Proof. done. Qed.

Lemma wp_ret_gbind {A B : Type} ok (a : A) (f : A -> go B) l tr Q :
  wp ok (f a) l tr Q -> wp ok (gbind (ret a) f) l tr Q.
Proof. done. Qed.

Lemma wp_panic_gbind {A B : Type} ok (v : panic_val) (f : A -> go B) l tr
    (Q : outcome B -> Launcher -> list Req -> Prop) :
  Q (Panic v) l tr -> wp ok (gbind (panic v) f) l tr Q.
Proof. done. Qed.

Lemma wp_ret {A : Type} ok (a : A) l tr (Q : outcome A -> Launcher -> list Req -> Prop) :
  Q (Ret a) l tr -> wp ok (ret a) l tr Q.
Proof. done. Qed.

Lemma wp_panic {A : Type} ok (v : panic_val) l tr
    (Q : outcome A -> Launcher -> list Req -> Prop) :
  Q (Panic v) l tr -> wp ok (panic v) l tr Q.
Proof. done. Qed.

Lemma wp_lift {A : Type} ok (m : method A) l tr
    (Q : outcome A -> Launcher -> list Req -> Prop) :
  Q (m l).1 (m l).2 tr -> wp ok (lift m) l tr Q.
Proof. done. Qed.

Lemma wp_call ok (r : Req) l tr (Q : outcome (Resp r) -> Launcher -> list Req -> Prop) :
  (forall x, ok r x -> Q (Ret x) l (tr ++ [r])) -> wp ok (call r) l tr Q.
Proof. done. Qed.

(** ** Counting requests *)

Lemma count_app P tr1 tr2 : count P (tr1 ++ tr2) = count P tr1 + count P tr2.
Proof. unfold count. by rewrite List.filter_app, length_app. Qed.

Lemma count_snoc P tr r : count P (tr ++ [r]) = count P tr + (if P r then 1 else 0).
Proof. rewrite count_app. unfold count. simpl. by destruct (P r). Qed.

Lemma count_zero P tr : count P tr = 0 <-> Forall (fun r => P r = false) tr.
Proof.
  unfold count. induction tr as [| r tr IH]; simpl.
  - split; [constructor | done].
  - destruct (P r) eqn:Hr; simpl.
    + split; [done |]. intros Hf. apply Forall_cons in Hf as [Hf _]. congruence.
    + rewrite IH. split; [by constructor |]. by intros [_ ?]%Forall_cons.
Qed.


Lemma requests_of_app {A : Type} (env : Environment) (p : Prog A) l tr :
  (run env p l tr).2 = tr ++ requests_of env p l tr.
Proof.
  unfold requests_of. destruct (run_trace_prefix env p l tr) as [new Hnew].
  rewrite Hnew. by rewrite drop_app_length.
Qed.

Lemma count_requests_of {A : Type} (env : Environment) (p : Prog A) l tr P :
  count P (run env p l tr).2 = count P tr + count P (requests_of env p l tr).
Proof. by rewrite requests_of_app at 1; rewrite count_app. Qed.

(** From a program to the requests of its runs. *)
Lemma wp_count_requests {A : Type} (env : Environment) (p : Prog A) l tr P :
  wp any_answer p l tr (fun _ _ tr' => count P tr' = count P tr) ->
  Forall (fun r => P r = false) (requests_of env p l tr).
Proof.
  intros Hp. apply count_zero. apply (wp_run _ env) in Hp; [| done].
  rewrite count_requests_of in Hp. lia.
Qed.

(** ** [Launch], [FormatArgs] and [Kill] under every environment *)

Section Launch_always.
Context `{flags.Pkg}.

Ltac wp_step :=
  lazymatch goal with
  | |- wp _ (gbind (lift _) _) _ _ _ =>
      apply wp_lift_gbind; cbv beta; rewrite ?Get_pure, ?Has_pure, ?GetFlags_pure;
      cbn [fst snd PID]
  | |- wp _ (gbind (call _) _) _ _ _ => apply wp_call_gbind; intros ? ?
  | |- wp _ (gbind (ret _) _) _ _ _ => apply wp_ret_gbind
  | |- wp _ (gbind (panic _) _) _ _ _ => apply wp_panic_gbind
  | |- wp _ (gbind _ _) _ _ _ => apply wp_gbind
  | |- wp _ (ret _) _ _ _ => apply wp_ret; cbv beta iota
  | |- wp _ (panic _) _ _ _ => apply wp_panic; cbv beta iota
  | |- wp _ (lift _) _ _ _ =>
      apply wp_lift; cbv beta; rewrite ?Get_pure, ?Has_pure, ?GetFlags_pure;
      cbn [fst snd PID]
  | |- wp _ (call _) _ _ _ => apply wp_call; intros ? ?; cbv beta iota
  | |- wp _ (gbind (utils_E (Ok _)) _) _ _ _ => cbn [utils_E]
  | |- wp _ (utils_E (Ok _)) _ _ _ => cbn [utils_E]
  | |- wp _ (utils_E ?r) _ _ _ => destruct r; unfold utils_E
  | |- wp _ (match None with _ => _ end) _ _ _ => cbv iota
  | |- wp _ (if cmd_leakless (mkCmd _ _ _ _ _) then _ else _) _ _ _ => cbn [cmd_leakless]
  | |- wp _ (if ?b then _ else _) _ _ _ => destruct b
  | |- wp _ (match ?x with _ => _ end) _ _ _ => destruct x
  | |- match ?x with Ret _ => _ | Panic _ => _ end => destruct x eqn:?; cbv beta iota
  end.

(** What [FormatArgs] leaves as it is, and the requests it makes. *)
Lemma wp_FormatArgs_range ok kvs execArgs l tr
    (Q : outcome (list string) -> Launcher -> list Req -> Prop) :
  (forall o l' tr', Flags l' = Flags l -> pid l' = pid l -> isLaunched l' = isLaunched l ->
     (forall P, (forall x, P (FilepathAbs x) = false) -> count P tr' = count P tr) ->
     Q o l' tr') ->
  wp ok (FormatArgs_range kvs execArgs) l tr Q.
Proof.
  revert execArgs l tr Q. induction kvs as [| [k v] rest IH]; intros execArgs l tr Q HQ; simpl.
  - by apply HQ.
  - destruct (decide (k = flags.Arguments)); [by apply IH |].
    destruct (String.prefix "rod-" k); [by apply IH |].
    destruct (decide (k = flags.UserDataDir)).
    + do 3 wp_step; [| by apply HQ].
      do 3 wp_step; [| apply HQ; try done; intros P HP; by rewrite count_snoc, HP, Nat.add_0_r].
      do 2 wp_step. destruct (store (arrays l) v 0 a0) as [[[] | p] h]; cbn [fst snd]; cbv beta iota.
      * wp_step. apply IH. intros o l' tr' HF Hp Hl Htr. apply HQ; [done .. |].
        intros P HP. by rewrite Htr, count_snoc, HP, Nat.add_0_r.
      * apply HQ; try done. intros P HP. by rewrite count_snoc, HP, Nat.add_0_r.
    + do 2 wp_step. by apply IH.
Qed.

Lemma wp_FormatArgs ok l tr (Q : outcome (list string) -> Launcher -> list Req -> Prop) :
  (forall o l' tr', Flags l' = Flags l -> pid l' = pid l -> isLaunched l' = isLaunched l ->
     (forall P, P RangeFlags = false -> (forall x, P (FilepathAbs x) = false) ->
                count P tr' = count P tr) ->
     Q o l' tr') ->
  wp ok FormatArgs l tr Q.
Proof.
  intros HQ. unfold FormatArgs. do 3 wp_step. apply wp_FormatArgs_range.
  intros [execArgs | p] l' tr' HF Hp Hl Htr.
  - do 2 wp_step. apply HQ; try done. intros P HR HP. by rewrite Htr, count_snoc, HR, Nat.add_0_r.
  - apply HQ; try done. intros P HR HP. by rewrite Htr, count_snoc, HR, Nat.add_0_r.
Qed.

(** [Kill] returns, leaves the launcher as it is, and kills nothing
    without a pid. *)
Lemma wp_Kill ok l tr (Q : outcome unit -> Launcher -> list Req -> Prop) :
  (forall tr',
     (forall P, (forall s, P (Sleep s) = false) -> (forall p, P (FindProcess p) = false) ->
                (pid l = 0%Z \/
                 (forall p, P (KillGroup p) = false) /\ (forall p, P (ProcessKill p) = false)) ->
                count P tr' = count P tr) ->
     Q (Ret tt) l tr') ->
  wp ok Kill l tr Q.
Proof.
  intros HQ. unfold Kill.
  repeat wp_step; apply HQ; intros P HS HF HK; rewrite ?count_snoc, ?HS, ?HF;
    try (destruct HK as [? | [HK1 HK2]]; [done | rewrite ?HK1, ?HK2]); lia.
Qed.

Ltac count_norm Q :=
  repeat first
    [ rewrite (count_snoc Q)
    | match goal with
      | Hc : forall P, _ -> _ -> _ -> count P ?t = _ |- context [count Q ?t] =>
          rewrite (Hc Q) by (first [done | right; done])
      | Hc : forall P, _ -> _ -> count P ?t = _ |- context [count Q ?t] =>
          rewrite (Hc Q) by done
      end ].

Ltac wp_walk_with hook :=
  repeat first
    [ hook
    | wp_step
    | apply wp_FormatArgs; intros [? | ?] ? ? ? ? ? ?; cbv beta iota
    | apply wp_Kill; intros ? ?; cbv beta iota ].

Ltac wp_walk := wp_walk_with ltac:(fail).

Ltac unfold_Launch_body :=
  unfold Launch_body, Launch_spawn, Launch_prepare, Launch_command, Launch_start, Launch_await,
    getBin, setupUserPreferences, setupCmd, getURL.

Lemma wp_Launch ok l tr (Q : outcome returned -> Launcher -> list Req -> Prop) :
  (isLaunched l <> 0%Z -> Q (Ret (""%string, Some ErrAlreadyLaunched)) l tr) ->
  (isLaunched l = 0%Z ->
   wp ok Launch_body (with_isLaunched 1 l) tr (fun o l' tr' => Q o l' (tr' ++ [CtxCancel]))) ->
  wp ok Launch l tr Q.
Proof.
  intros Hagain Hfirst. unfold Launch. apply wp_lift_gbind.
  destruct (decide (isLaunched l = 0%Z)) as [Hl | Hl].
  - rewrite hasLaunched_first by done. cbn [fst snd]. apply wp_defer.
    eapply wp_mono; [| by apply Hfirst]. intros o l' tr' HQ x _. exact HQ.
  - rewrite hasLaunched_again by done. cbn [fst snd]. by apply Hagain.
Qed.

Lemma wp_Launch_count P l tr :
  P CtxCancel = false ->
  (isLaunched l = 0%Z ->
   wp any_answer Launch_body (with_isLaunched 1 l) tr
     (fun _ _ tr' => count P tr' = count P tr)) ->
  wp any_answer Launch l tr (fun _ _ tr' => count P tr' = count P tr).
Proof.
  intros HP Hbody. apply wp_Launch; [done |]. intros Hl.
  eapply wp_mono; [| by apply Hbody].
  intros o l' tr' Htr. by rewrite count_snoc, HP, Htr, Nat.add_0_r.
Qed.

Lemma Get_frame name l l' :
  Flags l' = Flags l -> arrays l' = arrays l -> (Get name l').1 = (Get name l).1.
Proof.
  intros HF Ha. unfold Get, GetFlags. rewrite HF.
  destruct (Flags l !! flags.NormalizeFlag name) as [v |]; cbn [fst snd]; by rewrite ?Ha.
Qed.

Lemma Has_frame name l l' : Flags l' = Flags l -> (Has name l').1 = (Has name l).1.
Proof. intros HF. by rewrite !Has_spec, HF. Qed.

Lemma wp_Launch_body_frame ok l tr :
  wp ok Launch_body l tr (fun _ l' tr' =>
    Flags l' = Flags l /\ isLaunched l' = isLaunched l /\
    count is_OutputFile tr' <= count is_OutputFile tr + 1 /\
    count is_CmdStart tr' <= count is_CmdStart tr + 1 /\
    (count is_CmdStart tr' = count is_CmdStart tr ->
     pid l' = pid l /\ count is_kill tr' = count is_kill tr)).
Proof.
  unfold_Launch_body. wp_walk.
  all: cbn [Flags isLaunched pid with_pid].
  all: split_and!;
    [congruence | congruence | count_norm is_OutputFile; cbn [is_OutputFile]; lia | |].
  all: count_norm is_CmdStart; cbn [is_CmdStart]; try lia.
  all: intros _; split; [congruence |].
  all: count_norm is_kill; cbn [is_kill]; try lia.
Qed.

Lemma wp_Launch_body_CtxCancel ok l tr :
  wp ok Launch_body l tr (fun _ _ tr' => count is_CtxCancel tr' = count is_CtxCancel tr).
Proof.
  unfold_Launch_body. wp_walk.
  all: count_norm is_CtxCancel; cbn [is_CtxCancel]; lia.
Qed.

Lemma wp_Launch_body_Bin ok bin l tr :
  (Get flags.Bin l).1 = Ret bin -> bin <> ""%string ->
  wp ok Launch_body l tr (fun _ _ tr' => count (off_Bin bin) tr' = count (off_Bin bin) tr).
Proof.
  intros Hbin Hne. unfold_Launch_body.
  wp_walk_with ltac:(idtac;
    match goal with
    | |- match (Get flags.Bin l).1 with _ => _ end => rewrite Hbin; cbv beta iota
    | |- wp _ (if decide (bin = ""%string) then _ else _) _ _ _ => rewrite decide_False by done
    end).
  all: count_norm (off_Bin bin); cbn [off_Bin cmd_path]; rewrite ?bool_decide_eq_true_2 by done;
    cbn [negb]; lia.
Qed.

Lemma wp_Launch_body_Leakless ok l tr :
  (Has flags.Leakless l).1 = Ret false ->
  wp ok Launch_body l tr (fun _ _ tr' => count with_leakless tr' = count with_leakless tr).
Proof.
  intros Hhas. unfold_Launch_body.
  wp_walk_with ltac:(idtac;
    match goal with
    | |- match (Has flags.Leakless ?l').1 with _ => _ end =>
        rewrite (Has_frame flags.Leakless l l') by congruence; rewrite Hhas; cbv beta iota
    end).
  all: count_norm with_leakless; cbn [with_leakless cmd_leakless]; lia.
Qed.



Lemma wp_Launch_prepare_frame ok l tr :
  wp ok Launch_prepare l tr (fun _ l' tr' =>
    Flags l' = Flags l /\ count is_CmdStart tr' = count is_CmdStart tr).
Proof.
  unfold Launch_prepare, getBin, setupUserPreferences. wp_walk.
  all: split; [congruence |].
  all: count_norm is_CmdStart; cbn [is_CmdStart]; lia.
Qed.

(** The preparation of [Launch] leaves the flags and starts nothing. *)
Lemma run_Launch_prepare_frame (env : Environment) l tr :
  Flags (run env Launch_prepare l tr).1.2 = Flags l /\
  count is_CmdStart (run env Launch_prepare l tr).2 = count is_CmdStart tr.
Proof.
  apply (wp_run any_answer env Launch_prepare l tr
           (fun _ l' tr' => Flags l' = Flags l /\ count is_CmdStart tr' = count is_CmdStart tr));
    [done | apply wp_Launch_prepare_frame].
Qed.

Lemma valued_spec name l :
  valued name l <->
  forall v, Flags l !! flags.NormalizeFlag name = Some v -> elems (arrays l) v <> [].
Proof.
  unfold valued, Get, GetFlags, index.
  destruct (Flags l !! flags.NormalizeFlag name) as [v |]; cbn [fst snd].
  - destruct (elems (arrays l) v) as [| x xs] eqn:Hv; simpl.
    + split; [by intros [? ?] | intros Hn; by destruct (Hn v)].
    + split; [by intros _ ? [= <-]; rewrite Hv | eauto].
  - split; [done | eauto].
Qed.

Lemma valued_same_lengths name l l' :
  Flags l' = Flags l ->
  (forall v, length (elems (arrays l') v) = length (elems (arrays l) v)) ->
  valued name l -> valued name l'.
Proof.
  intros HF Hlen. rewrite !valued_spec, HF. intros Hv v Hl Hnil.
  apply (Hv v Hl). apply nil_length_inv. by rewrite <- Hlen, Hnil.
Qed.

Lemma wp_FormatArgs_range_returns kvs execArgs l tr
    (Q : outcome (list string) -> Launcher -> list Req -> Prop) :
  (forall v, (flags.UserDataDir, v) ∈ kvs -> elems (arrays l) v <> []) ->
  (forall args l' tr', Flags l' = Flags l -> pid l' = pid l -> isLaunched l' = isLaunched l ->
     (forall v, length (elems (arrays l') v) = length (elems (arrays l) v)) ->
     Q (Ret args) l' tr') ->
  wp files_succeed (FormatArgs_range kvs execArgs) l tr Q.
Proof.
  revert execArgs l tr Q.
  induction kvs as [| [k v] rest IH]; intros execArgs l tr Q Hkvs HQ; simpl.
  - by apply HQ.
  - assert (Hrest : forall v0, (flags.UserDataDir, v0) ∈ rest -> elems (arrays l) v0 <> []).
    { intros v0 Hin. apply Hkvs. by right. }
    destruct (decide (k = flags.Arguments)); [by apply IH |].
    destruct (String.prefix "rod-" k); [by apply IH |].
    destruct (decide (k = flags.UserDataDir)) as [-> | Hk].
    + destruct (elems (arrays l) v) as [| x xs] eqn:Hv; [by destruct (Hkvs v); [left |] |].
      assert (Hx : elems (arrays l) v !! 0 = Some x) by (by rewrite Hv).
      do 2 wp_step. unfold index. rewrite Hx. cbv beta iota.
      wp_step. match goal with Hx : files_succeed _ _ |- _ => destruct Hx as [abs ->] end.
      do 4 wp_step.
      destruct (store_first (arrays l) v x abs Hx) as (s & -> & ->). cbn [fst snd]. cbv beta iota.
      wp_step. apply IH.
      * intros v0 Hin. cbn [arrays with_arrays]. intros Hnil. apply (Hrest v0 Hin).
        apply nil_length_inv. by rewrite <- (length_elems_poke _ (s_arr s) (s_off s) abs), Hnil.
      * intros args l' tr' HF Hp Hl Hlen. apply HQ; [done .. |].
        intros v0. rewrite Hlen. cbn [arrays with_arrays]. apply length_elems_poke.
    + do 2 wp_step. by apply IH.
Qed.

Lemma wp_FormatArgs_returns l tr (Q : outcome (list string) -> Launcher -> list Req -> Prop) :
  (forall v, Flags l !! flags.UserDataDir = Some v -> elems (arrays l) v <> []) ->
  (forall args l' tr', Flags l' = Flags l -> pid l' = pid l -> isLaunched l' = isLaunched l ->
     (forall v, length (elems (arrays l') v) = length (elems (arrays l) v)) ->
     Q (Ret args) l' tr') ->
  wp files_succeed FormatArgs l tr Q.
Proof.
  intros Hu HQ. unfold FormatArgs. do 3 wp_step. apply wp_FormatArgs_range_returns.
  - intros v Hin. apply Hu. apply elem_of_map_to_list. by rewrite <- (shuffle_Permutation x).
  - intros args l' tr' HF Hp Hl Hlen. do 2 wp_step. by apply HQ.
Qed.

Lemma GetFlags_returns name l p : (GetFlags name l).1 <> Panic p.
Proof. unfold GetFlags. by destruct (Flags l !! _). Qed.

Lemma wp_Launch_body_returns l tr :
  Forall (fun name => valued name l)
    [flags.Bin; flags.UserDataDir; flags.Preferences; flags.ProfileDir;
     flags.RemoteDebuggingPort; flags.WorkingDir] ->
  (forall v, Flags l !! flags.UserDataDir = Some v -> elems (arrays l) v <> []) ->
  wp files_succeed Launch_body l tr (fun o _ _ => exists r, o = Ret r).
Proof.
  intros Hval Hu.
  repeat match goal with
         | Hv : Forall _ (_ :: _) |- _ =>
             let Hn := fresh "Hvalued" in apply Forall_cons in Hv as [Hn Hv]
         end.
  assert (Hget : forall name l', valued name l -> Flags l' = Flags l ->
     (forall v, length (elems (arrays l') v) = length (elems (arrays l) v)) ->
     exists x, (Get name l').1 = Ret x).
  { intros name l' Hin HF Hlen. destruct (valued_same_lengths name l l' HF Hlen Hin) as [x ->].
    by exists x. }
  unfold_Launch_body.
  wp_walk_with ltac:(idtac;
    match goal with
    | Hx : files_succeed (FilepathAbs _) _ |- _ => destruct Hx as [? ->]
    | Hx : files_succeed (OutputFile _ _) _ |- _ => simpl in Hx; subst
    | |- match (Get ?n ?l').1 with _ => _ end =>
        let Hx := fresh in
        destruct (Hget n l') as [? Hx];
          [assumption | cbn [Flags with_pid arrays]; congruence
           | intros; cbn [Flags with_pid arrays]; congruence |];
        rewrite Hx; cbv beta iota
    | |- wp _ FormatArgs _ _ _ => apply wp_FormatArgs_returns; [done |]; intros ? ? ? ? ? ? ?; cbv beta iota
    end).
  all: try (by eauto).
  all: exfalso;
    match goal with
    | Hp : (GetFlags _ _).1 = Panic _ |- _ => by apply GetFlags_returns in Hp
    | Hp : (Has _ _).1 = Panic _ |- _ => by rewrite Has_spec in Hp
    end.
Qed.

(** X1: [Launch] and [FormatArgs] leave the map [l.Flags] as it is, and
    [FormatArgs] also the pid and the latch; [Kill] leaves the whole
    launcher as it is.  None of them adds, removes or replaces a flag,
    whatever the environment answers. *)
Theorem Launch_keeps_Flags (env : Environment) l tr :
  Flags (run env Launch l tr).1.2 = Flags l /\
  (Flags (run env FormatArgs l tr).1.2 = Flags l /\
   pid (run env FormatArgs l tr).1.2 = pid l /\
   isLaunched (run env FormatArgs l tr).1.2 = isLaunched l) /\
  (run env Kill l tr).1.2 = l.
Proof.
  split_and!.
  - apply (wp_run any_answer env Launch l tr (fun _ l' _ => Flags l' = Flags l)); [done |].
    apply wp_Launch; [done |]. intros _.
    eapply wp_mono; [| apply wp_Launch_body_frame]. by intros o l' tr' [-> _].
  - apply (wp_run any_answer env FormatArgs l tr (fun _ l' _ => Flags l' = Flags l)); [done |].
    by apply wp_FormatArgs.
  - apply (wp_run any_answer env FormatArgs l tr (fun _ l' _ => pid l' = pid l)); [done |].
    by apply wp_FormatArgs.
  - apply (wp_run any_answer env FormatArgs l tr (fun _ l' _ => isLaunched l' = isLaunched l));
      [done |].
    by apply wp_FormatArgs.
  - by rewrite run_Kill_launcher.
Qed.

(** X2: among the requests of one [Launch] there is at most one start of a
    command; when there is none, the pid of the launcher is what it was and
    [Launch] has killed nothing. *)
Theorem Launch_starts_at_most_one (env : Environment) l tr :
  count is_CmdStart (requests_of env Launch l tr) <= 1 /\
  (count is_CmdStart (requests_of env Launch l tr) = 0 ->
   pid (run env Launch l tr).1.2 = pid l /\
   count is_kill (requests_of env Launch l tr) = 0).
Proof.
  pose proof (count_requests_of env Launch l tr is_CmdStart) as Hs.
  pose proof (count_requests_of env Launch l tr is_kill) as Hk.
  revert Hs Hk.
  apply (wp_run any_answer env Launch l tr (fun _ l' tr' =>
    count is_CmdStart tr' = count is_CmdStart tr + _ ->
    count is_kill tr' = count is_kill tr + _ ->
    _ <= 1 /\ (_ = 0 -> pid l' = pid l /\ _ = 0))); [done |].
  apply wp_Launch.
  - intros _ Hs Hk. split; [lia |]. intros _. split; [done | lia].
  - intros _. eapply wp_mono; [| apply wp_Launch_body_frame].
    intros o l' tr' (_ & _ & _ & Hle & Hsame) Hs Hk.
    rewrite count_snoc in Hs, Hk. cbn [is_CmdStart is_kill] in Hs, Hk.
    split; [lia |]. intros Hz. destruct Hsame as [Hp Hk']; [lia |]. split; [done | lia].
Qed.

(** X3: with a binary given ([Bin] with a path that is not empty),
    [Launch] never asks the browser fetcher for one, and the command it
    starts, if it starts one, is that binary. *)
Theorem Launch_starts_the_Bin (env : Environment) l tr bin :
  Get flags.Bin l = (Ret bin, l) -> bin <> ""%string ->
  Forall (fun r => r <> BrowserGet /\ forall c, r = CmdStart c -> cmd_path c = bin)
    (requests_of env Launch l tr).
Proof.
  intros Hbin Hne.
  eapply Forall_impl; [apply (wp_count_requests env Launch l tr (off_Bin bin)) |].
  - apply wp_Launch_count; [done |]. intros _. apply wp_Launch_body_Bin; [| done].
    rewrite (Get_frame _ l) by done. by rewrite Hbin.
  - intros r Hr. split; [by intros -> |]. intros c ->. simpl in Hr.
    apply negb_false_iff, bool_decide_eq_true in Hr. exact Hr.
Qed.

(** X4: without the leakless flag, [Launch] makes no call into package
    [leakless], and the command it starts, if any, is not a leakless
    one. *)
Theorem Launch_without_Leakless (env : Environment) l tr :
  Has flags.Leakless l = (Ret false, l) ->
  Forall (fun r => r <> LeaklessSupport /\ r <> LeaklessPid /\ r <> LeaklessErr /\
                   forall c, r = CmdStart c -> cmd_leakless c = false)
    (requests_of env Launch l tr).
Proof.
  intros Hhas.
  eapply Forall_impl; [apply (wp_count_requests env Launch l tr with_leakless) |].
  - apply wp_Launch_count; [done |]. intros _. apply wp_Launch_body_Leakless.
    rewrite (Has_frame _ l) by done. by rewrite Hhas.
  - intros r Hr. split_and!; try (by intros ->). by intros c ->.
Qed.


(** X6: once the latch is passed, the last request of [Launch] is the
    cancellation of the launcher's context, and its only one: the context
    is cancelled after a URL as after an error or a panic. *)
Theorem Launch_cancels_context_last (env : Environment) l tr :
  isLaunched l = 0%Z ->
  exists body, requests_of env Launch l tr = body ++ [CtxCancel] /\ CtxCancel ∉ body.
Proof.
  intros Hl. exists (requests_of env Launch_body (with_isLaunched 1 l) tr). split.
  - unfold requests_of. rewrite run_Launch_passed by done. cbn [snd].
    destruct (run_trace_prefix env Launch_body (with_isLaunched 1 l) tr) as [new ->].
    by rewrite <- app_assoc, !drop_app_length.
  - pose proof (wp_count_requests env Launch_body (with_isLaunched 1 l) tr is_CtxCancel
                  (wp_Launch_body_CtxCancel _ _ _)) as Hall.
    rewrite Forall_forall in Hall. intros Hin. by specialize (Hall _ Hin).
Qed.

(** X7: [Launch] returns, with a URL or an error, and does not panic, when
    the file system does what it is asked and each of the flags that
    [Launch] reads the value of is absent or has a value; so does
    [FormatArgs]. *)
Theorem Launch_returns (env : Environment) l tr :
  answers_within files_succeed env ->
  Forall (fun name => valued name l)
    [flags.Bin; flags.UserDataDir; flags.Preferences; flags.ProfileDir;
     flags.RemoteDebuggingPort; flags.WorkingDir] ->
  (forall v, Flags l !! flags.UserDataDir = Some v -> elems (arrays l) v <> []) ->
  (exists r, (run env Launch l tr).1.1 = Ret r) /\
  (exists args, (run env FormatArgs l tr).1.1 = Ret args).
Proof.
  intros Henv Hval Hu. split.
  - apply (wp_run files_succeed env Launch l tr (fun o _ _ => exists r, o = Ret r)); [done |].
    apply wp_Launch; [eauto |]. intros _.
    eapply wp_mono; [| apply wp_Launch_body_returns].
    + by intros o l' tr' Ho.
    + eapply Forall_impl; [exact Hval |]. intros name. by apply valued_same_lengths.
    + done.
  - apply (wp_run files_succeed env FormatArgs l tr (fun o _ _ => exists r, o = Ret r)); [done |].
    apply wp_FormatArgs_returns; eauto.
Qed.

End Launch_always.

(** ** [Launch]: reconnection before a process is started *)

Section Launch_reconnect.
Context `{flags.Pkg}.

Lemma run_Launch_body_prepared env l tr :
  run env Launch_body l tr
  = match run env Launch_prepare l tr with
    | (Ret (inr (bin, args)), l2, tr2) =>
        match run env (Launch_command bin args) l2 tr2 with
        | (Ret (inr cmd), l3, tr3) =>
            run env (s <- Launch_start cmd ;;
                     match s with
                     | inl r => ret r
                     | inr _ => Launch_await
                     end)%go l3 tr3
        | (Ret (inl r), l3, tr3) => (Ret r, l3, tr3)
        | (Panic p, l3, tr3) => (Panic p, l3, tr3)
        end
    | (Ret (inl r), l2, tr2) => (Ret r, l2, tr2)
    | (Panic p, l2, tr2) => (Panic p, l2, tr2)
    end.
Proof.
  destruct (run env Launch_prepare l tr) as [[[[r | [bin args]] | p] l2] tr2] eqn:Hp.
  - unfold Launch_body, Launch_spawn. rewrite !run_gbind, Hp. reflexivity.
  - destruct (run env (Launch_command bin args) l2 tr2) as [[[[r | cmd] | p] l3] tr3] eqn:Hc.
    + by apply (run_Launch_body_returned env l tr bin args l2 tr2).
    + by apply (run_Launch_body_commanded env l tr bin args l2 tr2).
    + unfold Launch_body, Launch_spawn. rewrite !run_gbind, Hp. cbn [fst snd].
      rewrite !run_gbind, Hc. reflexivity.
  - unfold Launch_body, Launch_spawn. rewrite !run_gbind, Hp. reflexivity.
Qed.

Lemma count_zero_requests {A : Type} (env : Environment) (p : Prog A) l tr P :
  count P (run env p l tr).2 = count P tr -> count P (requests_of env p l tr) = 0.
Proof. rewrite count_requests_of. lia. Qed.

(** C6, as the code has it.  With the latch passed and leakless not used
    (the flag is absent, or [leakless.Support()] answers false), [Launch]
    first gets the binary, writes the preferences and formats the
    arguments; where one of these returns an error or panics, [Launch] ends
    there, with no reconnection and no process.  Otherwise it has started
    nothing so far, and it reads the debugging port: on a port flag
    without a value it panics; on any other it asks [ResolveURL] for the
    port.  If that succeeds, [Launch] returns the URL found and has
    started no process in the whole call.  If it fails, with whatever
    error, the error is dropped and [Launch] goes on to [setupCmd] and then
    to the start of the command made of the binary and the formatted
    arguments (unless [setupCmd] panics on a working directory without a
    value): the request that starts it comes right after the reconnection
    attempt and [setupCmd]. *)
Theorem Launch_reconnects_before_spawning (env : Environment) l tr has :
  isLaunched l = 0%Z ->
  Has flags.Leakless l = (Ret has, l) ->
  (has = true -> forall tr', env tr' LeaklessSupport = false) ->
  match run env Launch_prepare (with_isLaunched 1 l) tr with
  | (Ret (inr (bin, args)), l2, tr2) =>
      let tr3 := tr2 ++ (if has then [LeaklessSupport] else []) in
      count is_CmdStart tr3 = count is_CmdStart tr /\
      match (Get flags.RemoteDebuggingPort l2).1 with
      | Ret port =>
          match (env tr3 (ResolveURL port)).2 with
          | None =>
              run env Launch l tr
              = (Ret ((env tr3 (ResolveURL port)).1, None), l2,
                 tr3 ++ [ResolveURL port; CtxCancel]) /\
              count is_CmdStart (requests_of env Launch l tr) = 0
          | Some _ =>
              run env Launch l tr
              = run env
                  (defer (call CtxCancel)
                     (s <- Launch_start (mkCmd false bin args ""%string None) ;;
                      match s with
                      | inl r => ret r
                      | inr _ => Launch_await
                      end)%go)
                  l2 (tr3 ++ [ResolveURL port]) /\
              match (Get flags.WorkingDir l2).1 with
              | Ret dir =>
                  (tr3 ++ [ResolveURL port; OsSetupCmd;
                           CmdStart (mkCmd false bin args dir (Env_of l2))])
                    `prefix_of` (run env Launch l tr).2
              | Panic p =>
                  run env Launch l tr
                  = (Panic p, l2, tr3 ++ [ResolveURL port; OsSetupCmd; CtxCancel])
              end
          end
      | Panic p =>
          run env Launch l tr = (Panic p, l2, tr3 ++ [CtxCancel]) /\
          count is_CmdStart (requests_of env Launch l tr) = 0
      end
  | (Ret (inl r), l2, tr2) =>
      run env Launch l tr = (Ret r, l2, tr2 ++ [CtxCancel]) /\
      count is_CmdStart (requests_of env Launch l tr) = 0
  | (Panic p, l2, tr2) =>
      run env Launch l tr = (Panic p, l2, tr2 ++ [CtxCancel]) /\
      count is_CmdStart (requests_of env Launch l tr) = 0
  end.
Proof.
  intros Hl Hhas Hsup.
  pose proof (run_Launch_prepare_frame env (with_isLaunched 1 l) tr) as [HF Hcount].
  assert (Hcancel : forall tr', count is_CmdStart (tr' ++ [CtxCancel]) = count is_CmdStart tr').
  { intros tr'. by rewrite count_snoc, Nat.add_0_r. }
  rewrite run_Launch_passed by done. rewrite run_Launch_body_prepared.
  destruct (run env Launch_prepare (with_isLaunched 1 l) tr)
    as [[[[r | [bin args]] | p] l2] tr2] eqn:Hp; cbn [fst snd] in *.
  - split; [done |]. apply count_zero_requests.
    rewrite run_Launch_passed, run_Launch_body_prepared, Hp by done. cbn [fst snd].
    by rewrite Hcancel.
  - rewrite run_Launch_command. cbv zeta.
    assert (Hb : bool_decide (is_Some (Flags l2 !! flags.NormalizeFlag flags.Leakless)) = has).
    { rewrite Has_spec in Hhas. injection Hhas as <-. by rewrite HF. }
    rewrite Hb.
    assert (Hoff : has && env tr2 LeaklessSupport = false).
    { destruct has; [| done]. by rewrite Hsup. }
    rewrite Hoff.
    set (tr3 := tr2 ++ (if has then [LeaklessSupport] else [])).
    assert (Hc3 : count is_CmdStart tr3 = count is_CmdStart tr).
    { subst tr3. rewrite count_app, Hcount. destruct has; unfold count; simpl; lia. }
    split; [done |].
    destruct (Get flags.RemoteDebuggingPort l2).1 as [port | p] eqn:Hport.
    + destruct (env tr3 (ResolveURL port)).2 as [e |] eqn:He; cbn [fst snd].
      * split; [by rewrite run_defer |].
        destruct (Get flags.WorkingDir l2).1 as [dir | p] eqn:Hdir; cbn [fst snd].
        -- apply prefix_app_r.
           etrans; [| apply run_gbind_trace_prefix].
           replace (tr3 ++ [ResolveURL port; OsSetupCmd;
                            CmdStart (mkCmd false bin args dir (Env_of l2))])
             with ((tr3 ++ [ResolveURL port])
                   ++ [OsSetupCmd; CmdStart (mkCmd false bin args dir (Env_of l2))])
             by (by rewrite <- app_assoc).
           apply (Launch_start_requests env (mkCmd false bin args ""%string None)).
           pose proof (Get_pure flags.WorkingDir l2) as Hpure.
           destruct (Get flags.WorkingDir l2) as [o l2']. simpl in *. by subst.
        -- assert (Hst : run env (Launch_start (mkCmd false bin args ""%string None)) l2
                            (tr3 ++ [ResolveURL port])
                          = (Panic p, l2, (tr3 ++ [ResolveURL port]) ++ [OsSetupCmd])).
           { unfold Launch_start. by rewrite run_gbind, run_setupCmd, Hdir. }
           rewrite run_gbind, Hst. cbn [fst snd]. by rewrite <- !app_assoc.
      * split; [by rewrite <- app_assoc |]. apply count_zero_requests.
        rewrite run_Launch_passed, run_Launch_body_prepared, Hp, run_Launch_command by done.
        cbv zeta. rewrite Hb, Hoff, Hport. fold tr3. rewrite He. cbn [fst snd].
        by rewrite Hcancel, count_snoc, Hc3, Nat.add_0_r.
    + split; [done |]. apply count_zero_requests.
      rewrite run_Launch_passed, run_Launch_body_prepared, Hp, run_Launch_command by done.
      cbv zeta. rewrite Hb, Hoff, Hport. fold tr3. cbn [fst snd]. by rewrite Hcancel.
  - split; [done |]. apply count_zero_requests.
    rewrite run_Launch_passed, run_Launch_body_prepared, Hp by done. cbn [fst snd].
    by rewrite Hcancel.
Qed.

End Launch_reconnect.

(** ** The properties on concrete launchers *)

(** C1 at the flags [{"a": ["1","2"], "b": nil}], a relative
    [user-data-dir] and two positional arguments. *)
Lemma FormatArgs_sorts_flags_and_positional_witness :
  let l := new_launcher [("a", Some ["1"; "2"]); ("b", None);
                         ("", Some ["https://example.com"; "about:blank"]);
                         ("user-data-dir", Some ["data"])]%string in
  UserDataDir_unshared l /\
  (run (environment answers) FormatArgs l []).1.1
  = Ret ["--a=1,2"; "--b"; "--user-data-dir=/cwd/data"; "about:blank";
         "https://example.com"]%string.
Proof.
  intros l.
  assert (Hun : UserDataDir_unshared l) by (apply (bool_decide_unpack _); vm_compute; exact I).
  split; [exact Hun |].
  pose proof (FormatArgs_sorts_flags_and_positional (environment answers) l [] Hun) as Hspec.
  cbv zeta in Hspec.
  destruct (run (environment answers) FormatArgs l []) as [[[args | p] l'] tr'] eqn:Hrun.
  - destruct Hspec as (abs & Habs & -> & _).
    assert (Hfl : (if public flags.UserDataDir then Flags l !! flags.UserDataDir else None)
                  = Some (Some (Slice 0 0 1 1))) by (vm_compute; reflexivity).
    rewrite Hfl in Habs. destruct Habs as (x & a & Hx & Ha & -> & _).
    vm_compute in Hx. injection Hx as <-. vm_compute in Ha. injection Ha as <-.
    vm_compute. reflexivity.
  - vm_compute in Hrun. discriminate Hrun.
Defined.

(** C1 as stated fails in three ways.  The positional arguments are
    sorted in with the flags: ["!a"] comes before ["--x"], and ["b"] after
    ["!a"].  A [user-data-dir] without values gives no list at all.  And
    a flag that shares the rewritten cell is printed with the old or the
    new value, by the order in which [range] visits the map. *)
Lemma FormatArgs_not_as_stated :
  (let l := new_launcher [("x", None); ("", Some ["b"; "!a"])]%string in
   (run (environment answers) FormatArgs l []).1.1 = Ret ["!a"; "--x"; "b"]%string /\
   FormatArgs_as_stated l = ["--x"; "b"; "!a"]%string) /\
  (let l := new_launcher [("user-data-dir"%string, None)] in
   (run (environment answers) FormatArgs l []).1.1 = Panic IndexOutOfRange) /\
  (let l := shared_launcher in
   (run (environment answers) FormatArgs l []).1.1
   = Ret ["--disk-cache-dir=/cwd/data"; "--user-data-dir=/cwd/data"]%string /\
   (run (environment (with_RangeFlags [1] answers)) FormatArgs l []).1.1
   = Ret ["--disk-cache-dir=data"; "--user-data-dir=/cwd/data"]%string).
Proof. vm_compute. split_and!; reflexivity. Qed.

(** C2 on [l_demo]: the first [Launch] starts the browser, the second is
    turned away and changes nothing. *)
Lemma Launch_exactly_once_witness :
  let l1 := (run (environment answers) Launch l_demo []).1.2 in
  isLaunched l_demo = 0%Z /\
  run (environment answers) Launch l1 []
  = (Ret (""%string, Some ErrAlreadyLaunched), l1, []).
Proof.
  intros l1. split; [reflexivity |].
  destruct (Launch_exactly_once (environment answers) l_demo []) as (_ & Hfirst & _).
  destruct (Hfirst eq_refl) as (_ & _ & Hagain). apply Hagain.
Defined.

(** Two calls of [Launch] at once on [l_demo]: the first to reach the latch
    passes, the other is turned away. *)
Example two_concurrent_Launch :
  rtc pool_step (l_demo, [unstarted; unstarted])
    (with_isLaunched 1 l_demo, [([], defer (call CtxCancel) Launch_body); turned_away]).
Proof.
  eapply rtc_l.
  - apply (pool_step_thread l_demo (with_isLaunched 1 l_demo) [unstarted; unstarted] 0
             unstarted ([], defer (call CtxCancel) Launch_body)); [reflexivity |].
    split; reflexivity.
  - eapply rtc_l; [| apply rtc_refl].
    apply (pool_step_thread (with_isLaunched 1 l_demo) (with_isLaunched 1 l_demo)
             [([], defer (call CtxCancel) Launch_body); unstarted] 1
             unstarted turned_away); [reflexivity |].
    split; reflexivity.
Qed.

(** C5 on [l_demo]: the parser delivers the URL first, and [ResolveURL]
    confirms it. *)
Lemma Launch_returns_by_first_signal_witness :
  isLaunched l_demo = 0%Z /\
  run (environment answers) Launch_spawn (with_isLaunched 1 l_demo) []
  = (Ret (inr tt), l_demo_started, [RangeFlags; ResolveURL "9222"; OsSetupCmd; CmdStart cmd_demo]) /\
  (run (environment answers) Launch l_demo []).1.1 = Ret (ws_url, None).
Proof.
  assert (Hs : run (environment answers) Launch_spawn (with_isLaunched 1 l_demo) []
               = (Ret (inr tt), l_demo_started,
                  [RangeFlags; ResolveURL "9222"; OsSetupCmd; CmdStart cmd_demo]))
    by (vm_compute; reflexivity).
  split_and!; [reflexivity | exact Hs |].
  exact (Launch_returns_by_first_signal (environment answers) l_demo [] _ _ eq_refl Hs).
Defined.

(** C5 as stated fails when [ResolveURL] rejects the URL that the parser
    delivered first: [Launch] returns the error of [ResolveURL]. *)
Lemma Launch_fails_after_URL_delivered :
  let env := environment (with_ResolveURL (fun _ => (""%string, Some "connection refused"%string))
                            answers) in
  run env Launch l_demo []
  = (Ret (""%string, Some (ExtError "connection refused")), l_demo_started,
     [RangeFlags; ResolveURL "9222"; OsSetupCmd; CmdStart cmd_demo; GoWaitExit; SelectURL;
      ResolveURL ws_url; CtxCancel]) /\
  env [RangeFlags; ResolveURL "9222"; OsSetupCmd; CmdStart cmd_demo; GoWaitExit] SelectURL
  = parser_URL ws_url.
Proof. vm_compute. split; reflexivity. Qed.

(** C6 on [l_demo], with a browser that answers on the port: [Launch]
    returns its URL and starts nothing. *)
Lemma Launch_reconnects_before_spawning_witness :
  let env := environment (with_ResolveURL (fun _ => (ws_url, None)) answers) in
  isLaunched l_demo = 0%Z /\
  Has flags.Leakless l_demo = (Ret false, l_demo) /\
  run env Launch l_demo []
  = (Ret (ws_url, None), with_isLaunched 1 l_demo,
     [RangeFlags; ResolveURL "9222"; CtxCancel]) /\
  count is_CmdStart (requests_of env Launch l_demo []) = 0.
Proof.
  intros env.
  assert (Hp : run env Launch_prepare (with_isLaunched 1 l_demo) []
               = (Ret (inr ("chrome"%string,
                            ["--headless"; "--remote-debugging-port=9222"]%string)),
                  with_isLaunched 1 l_demo, [RangeFlags]))
    by (vm_compute; reflexivity).
  pose proof (Launch_reconnects_before_spawning env l_demo [] false eq_refl eq_refl
                ltac:(discriminate)) as Hspec.
  rewrite Hp in Hspec. destruct Hspec as [_ Hspec].
  split_and!; [reflexivity | reflexivity | exact (proj1 Hspec) | exact (proj2 Hspec)].
Defined.

(** C6 as stated fails: [Launch] does the same on a refused connection and
    on any other error of the reconnection; it starts the command in both
    cases. *)
Lemma Launch_spawns_on_any_connect_error :
  let refused := environment answers in
  let other :=
    environment
      (with_ResolveURL
         (fun u => if decide (u = ws_url) then (ws_url, None)
                   else (""%string, Some "x509: certificate signed by unknown authority"%string))
         answers) in
  (refused [RangeFlags] (ResolveURL "9222")).2 = Some "connection refused"%string /\
  (other [RangeFlags] (ResolveURL "9222")).2
  = Some "x509: certificate signed by unknown authority"%string /\
  run refused Launch l_demo [] = run other Launch l_demo [] /\
  run other Launch l_demo []
  = (Ret (ws_url, None), l_demo_started,
     [RangeFlags; ResolveURL "9222"; OsSetupCmd; CmdStart cmd_demo; GoWaitExit; SelectURL;
      ResolveURL ws_url; CtxCancel]).
Proof. vm_compute. split_and!; reflexivity. Qed.

(** C9 on [l_demo], with a context cancelled while [Launch] waits. *)
Lemma Launch_kills_when_getURL_fails_witness :
  let env := environment (with_SelectURL ctx_Done answers) in
  run env Launch l_demo []
  = (Ret (""%string, Some (ExtError "context canceled")), l_demo_started,
     [RangeFlags; ResolveURL "9222"; OsSetupCmd; CmdStart cmd_demo; GoWaitExit; SelectURL;
      CtxErr; Sleep 1; KillGroup 4242; FindProcess 4242; ProcessKill 4242; CtxCancel]).
Proof.
  intros env.
  assert (Hs : run env Launch_spawn (with_isLaunched 1 l_demo) []
               = (Ret (inr tt), l_demo_started,
                  [RangeFlags; ResolveURL "9222"; OsSetupCmd; CmdStart cmd_demo]))
    by (vm_compute; reflexivity).
  assert (Hg : run env getURL l_demo_started
                 ([RangeFlags; ResolveURL "9222"; OsSetupCmd; CmdStart cmd_demo] ++ [GoWaitExit])
               = (Ret (""%string, Some (ExtError "context canceled")), l_demo_started,
                  [RangeFlags; ResolveURL "9222"; OsSetupCmd; CmdStart cmd_demo; GoWaitExit;
                   SelectURL; CtxErr]))
    by (vm_compute; reflexivity).
  destruct (Launch_kills_when_getURL_fails env l_demo [] _ _ _ _ _ eq_refl Hs Hg) as [HL _].
  rewrite HL. vm_compute. reflexivity.
Defined.

(** C10 on a launcher whose [user-data-dir] has two values, and on
    [shared_launcher], where the slice of [disk-cache-dir] reaches the cell
    of [user-data-dir] and shows the absolute path afterwards. *)
Lemma FormatArgs_rewrites_UserDataDir_witness :
  (let l := new_launcher [("a", Some ["1"]); ("user-data-dir", Some ["data"; "x"])]%string in
   let l' := (run (environment answers) FormatArgs l []).1.2 in
   Flags l !! "user-data-dir"%string = Some (Some (Slice 0 0 2 2)) /\
   elems (arrays l) (Some (Slice 0 0 2 2)) = ["data"; "x"]%string /\
   elems (arrays l') (Some (Slice 0 0 2 2)) = ["/cwd/data"; "x"]%string) /\
  (let l := shared_launcher in
   let l' := (run (environment answers) FormatArgs l []).1.2 in
   Flags l !! "disk-cache-dir"%string = Some (Some (Slice 0 0 1 1)) /\
   covers (Slice 0 0 1 1) 0 0 /\
   elems (arrays l') (Some (Slice 0 0 1 1)) !! 0 = Some "/cwd/data"%string).
Proof.
  split.
  - intros l l'. split_and!; [reflexivity | reflexivity |].
    exact (proj1 (proj2 (FormatArgs_rewrites_UserDataDir (environment answers) l []
                    (Some (Slice 0 0 2 2)) "data" "/cwd/data" eq_refl eq_refl eq_refl eq_refl))).
  - intros l l'. split_and!; [reflexivity | by split; simpl; lia |].
    assert (Hpub : public flags.UserDataDir = true) by reflexivity.
    assert (Hu : Flags l !! flags.UserDataDir = Some (Some (Slice 0 0 1 1))) by reflexivity.
    assert (Hx : elems (arrays l) (Some (Slice 0 0 1 1)) !! 0 = Some "data"%string)
      by reflexivity.
    assert (Habs : environment answers ([] ++ [RangeFlags]) (FilepathAbs "data")
                   = Ok "/cwd/data"%string) by reflexivity.
    destruct (FormatArgs_rewrites_UserDataDir (environment answers) l [] _ _ _ Hpub Hu Hx Habs)
      as (_ & _ & _ & _ & _ & s & [= <-] & _ & Hv).
    destruct (Hv (Slice 0 0 1 1)) as [_ Hc]. apply Hc. split; simpl; lia.
Defined.


(** C10 as stated fails on [shared_launcher]: the values of
    [disk-cache-dir], another flag, are rewritten with those of
    [user-data-dir]. *)
Lemma FormatArgs_rewrites_shared_flag :
  let l := shared_launcher in
  let l' := (run (environment answers) FormatArgs l []).1.2 in
  Flags l !! "disk-cache-dir"%string = Some (Some (Slice 0 0 1 1)) /\
  Flags l' !! "disk-cache-dir"%string = Some (Some (Slice 0 0 1 1)) /\
  elems (arrays l) (Some (Slice 0 0 1 1)) = ["data"%string] /\
  elems (arrays l') (Some (Slice 0 0 1 1)) = ["/cwd/data"%string].
Proof. vm_compute. split_and!; reflexivity. Qed.

(** ** The transport *)

(** C8: on a fresh transport the first [Connect] returns, with nil or with
    the error of the handshake, and whatever it returned the second
    [Connect] panics, without a handshake and without a change to the
    transport. *)
Theorem Connect_twice_panics (first second : cdp.handshake) :
  let ws1 := (cdp.Connect first cdp.zero).2 in
  (exists err, (cdp.Connect first cdp.zero).1 = Ret err) /\
  cdp.Connect second ws1 = (Panic DuplicatedConnection, ws1).
Proof. destruct first; simpl; eauto. Qed.

Example Connect_bad_handshake :
  (cdp.Connect (cdp.Refused "200 OK" "") cdp.zero).1
  = Ret (Some "websocket bad handshake: 200 OK. "%string).
Proof. reflexivity. Qed.

(** ** [Launch] under every environment, on [l_demo] *)

(** [l_demo] has the binary ["chrome"]: whatever the environment of the
    examples answers, nothing is downloaded. *)
Lemma Launch_starts_the_Bin_witness :
  Get flags.Bin l_demo = (Ret "chrome"%string, l_demo) /\
  Forall (fun r => r <> BrowserGet /\ forall c, r = CmdStart c -> cmd_path c = "chrome"%string)
    (requests_of (environment answers) Launch l_demo []).
Proof.
  split; [reflexivity |].
  apply (Launch_starts_the_Bin (environment answers) l_demo [] "chrome"); [reflexivity | done].
Defined.

(** [l_demo] has no leakless flag. *)
Lemma Launch_without_Leakless_witness :
  Has flags.Leakless l_demo = (Ret false, l_demo) /\
  Forall (fun r => r <> LeaklessSupport /\ r <> LeaklessPid /\ r <> LeaklessErr /\
                   forall c, r = CmdStart c -> cmd_leakless c = false)
    (requests_of (environment answers) Launch l_demo []).
Proof.
  split; [reflexivity |].
  apply (Launch_without_Leakless (environment answers) l_demo []). reflexivity.
Defined.

(** The first [Launch] on [l_demo] ends with the cancellation. *)
Lemma Launch_cancels_context_last_witness :
  isLaunched l_demo = 0%Z /\
  exists body, requests_of (environment answers) Launch l_demo [] = body ++ [CtxCancel] /\
               CtxCancel ∉ body.
Proof.
  split; [reflexivity |].
  apply (Launch_cancels_context_last (environment answers) l_demo []). reflexivity.
Defined.

Lemma files_succeed_answers : answers_within files_succeed (environment answers).
Proof. intros tr []; simpl; eauto. Qed.

(** The environment of the examples never fails on a file, and the flags
    of [l_demo] that [Launch] reads have values. *)
Lemma Launch_returns_witness :
  answers_within files_succeed (environment answers) /\
  exists r, (run (environment answers) Launch l_demo []).1.1 = Ret r.
Proof.
  split; [exact files_succeed_answers |].
  refine (proj1 (Launch_returns (environment answers) l_demo [] files_succeed_answers _ _)).
  - repeat constructor; by eexists.
  - intros v Hv. vm_compute in Hv. done.
Defined.

(** ** The setters of the flag store *)

Lemma length_write_at i xs (l : list string) :
  i + length xs <= length l -> length (write_at i xs l) = length l.
Proof.
  intros Hi. unfold write_at. rewrite !length_app, length_take, length_drop. lia.
Qed.

Lemma take_drop_write_at off len xs (A : list string) :
  off + len + length xs <= length A ->
  take (len + length xs) (drop off (write_at (off + len) xs A)) = take len (drop off A) ++ xs.
Proof.
  intros Hlen. unfold write_at.
  rewrite drop_app_le by (rewrite length_take; lia).
  rewrite skipn_firstn_comm.
  replace (off + len - off) with len by lia.
  rewrite take_app_ge by (rewrite length_take, length_drop; lia).
  rewrite length_take, length_drop.
  replace (len + length xs - len `min` (length A - off)) with (length xs) by lia.
  by rewrite take_app_length.
Qed.

Lemma within_elems_length h s : within h s -> length (elems h (Some s)) = s_len s.
Proof.
  intros [Hlen [Hc | [_ Hcap]]]; unfold elems; rewrite length_take, length_drop; lia.
Qed.

Lemma elems_same_array h h' s :
  array h' (s_arr s) = array h (s_arr s) -> elems h' (Some s) = elems h (Some s).
Proof. unfold elems. by intros ->. Qed.

Lemma elems_no_room h s : s_len s <= s_cap s -> s_cap s = 0 -> elems h (Some s) = [].
Proof. intros Hl Hc. unfold elems. replace (s_len s) with 0 by lia. done. Qed.

Section go_append_facts.
Variable growcap : nat -> nat -> nat.

Lemma go_append_spec h v xs :
  (forall s, v = Some s -> within h s) ->
  let v' := (go_append growcap h v xs).1 in
  let h' := (go_append growcap h v xs).2 in
  elems h' v' = elems h v ++ xs /\
  (forall s', v' = Some s' -> within h' s') /\
  (forall a, is_Some (h !! a) -> (forall s, v' = Some s -> s_cap s <> 0 -> a <> s_arr s) ->
             h' !! a = h !! a) /\
  (forall s', v' = Some s' -> s_cap s' <> 0 ->
     (exists s, v = Some s /\ s_cap s <> 0 /\ s_arr s' = s_arr s) \/ h !! s_arr s' = None) /\
  (forall a, is_Some (h !! a) ->
             is_Some (h' !! a) /\ length (array h' a) = length (array h a)).
Proof.
  intros Hv. unfold go_append. cbv zeta.
  destruct (decide (slen v + length xs <= scap v)) as [Hfit | Hgrow].
  - destruct v as [s |]; simpl in *.
    + destruct (Hv s eq_refl) as [Hlen Hcap].
      split_and!.
      * unfold elems, array. cbn [s_arr s_off s_len]. rewrite lookup_insert_eq. simpl.
        destruct Hcap as [Hc | [_ Hc]].
        -- assert (length xs = 0) as ->%nil_length_inv by lia.
           replace (s_len s) with 0 by lia. by rewrite app_nil_r.
        -- apply take_drop_write_at. unfold array in Hc. lia.
      * intros s' [= <-]. split; cbn [s_len s_cap s_arr s_off]; [lia |].
        destruct Hcap as [Hc | [Hs Hc]]; [by left | right].
        unfold array. rewrite lookup_insert_eq. split; [done |]. simpl.
        rewrite length_write_at; [done |]. unfold array in Hc. lia.
      * intros a Ha Hne. destruct (decide (s_cap s = 0)) as [Hz | Hnz].
        -- assert (length xs = 0) as ->%nil_length_inv by lia.
           destruct (decide (a = s_arr s)) as [-> | Hna]; [| by rewrite lookup_insert_ne].
           rewrite lookup_insert_eq. unfold write_at. simpl.
           rewrite Nat.add_0_r, take_drop. unfold array. by destruct Ha as [A ->].
        -- rewrite lookup_insert_ne; [done |]. intros <-. by eapply Hne.
      * intros s' [= <-] Hc. left. exists s. by cbn in *.
      * intros a Ha. destruct (decide (a = s_arr s)) as [-> | Hna].
        -- unfold array. rewrite lookup_insert_eq. split; [done |]. simpl.
           destruct Hcap as [Hc | [_ Hc]].
           ++ assert (length xs = 0) as ->%nil_length_inv by lia.
              unfold write_at. simpl. rewrite Nat.add_0_r, take_drop. by destruct Ha as [A ->].
           ++ destruct Ha as [A HA]. rewrite HA. simpl. unfold array in Hc. rewrite HA in Hc.
              simpl in Hc. apply length_write_at. lia.
        -- unfold array. by rewrite lookup_insert_ne.
    + assert (length xs = 0) as ->%nil_length_inv by lia. split_and!; try done.
  - cbn [fst snd].
    set (n := slen v + length xs). set (c := n `max` growcap (scap v) n).
    set (a := fresh (dom h)).
    assert (Ha : h !! a = None) by (apply not_elem_of_dom, is_fresh).
    assert (Hl : length (elems h v) = slen v).
    { destruct v as [s |]; [| done]. by apply within_elems_length, Hv. }
    split_and!.
    + unfold elems at 1. cbn [s_arr s_off s_len]. unfold array. rewrite lookup_insert_eq.
      simpl. rewrite drop_0, app_assoc. apply take_app_length'.
      rewrite length_app. lia.
    + intros s' [= <-]. split; cbn [s_len s_cap s_arr s_off]; [lia |]. right.
      unfold array. rewrite lookup_insert_eq. split; [done |]. simpl.
      rewrite !length_app, length_replicate. lia.
    + intros a' Ha' _. apply lookup_insert_ne. intros <-. rewrite Ha in Ha'. by destruct Ha'.
    + intros s' [= <-] _. by right.
    + intros a' Ha'. unfold array. rewrite lookup_insert_ne; [done |].
      intros <-. rewrite Ha in Ha'. by destruct Ha'.
Qed.

End go_append_facts.

Lemma within_same h h' s :
  (forall a, is_Some (h !! a) ->
             is_Some (h' !! a) /\ length (array h' a) = length (array h a)) ->
  within h s -> within h' s.
Proof.
  intros Hh [Hlen [Hc | [Hs Hcap]]]; split; [done | by left | done |].
  right. destruct (Hh _ Hs) as [Hs' Hl]. by rewrite Hl.
Qed.

Lemma elems_same h h' s :
  within h s ->
  (s_cap s <> 0 -> h' !! s_arr s = h !! s_arr s) ->
  elems h' (Some s) = elems h (Some s).
Proof.
  intros [Hlen Hcap] Hh. destruct (decide (s_cap s = 0)) as [Hz | Hnz].
  - by rewrite !elems_no_room.
  - apply elems_same_array. unfold array. by rewrite Hh.
Qed.

(** What a write of the entry [k] keeps. *)
Lemma owned_update l k v h' p i :
  owned l ->
  (forall a, is_Some (arrays l !! a) ->
             is_Some (h' !! a) /\ length (array h' a) = length (array (arrays l) a)) ->
  (forall a, is_Some (arrays l !! a) ->
             (forall s, v = Some s -> s_cap s <> 0 -> a <> s_arr s) ->
             h' !! a = arrays l !! a) ->
  (forall s, v = Some s -> within h' s) ->
  (forall s, v = Some s -> s_cap s <> 0 ->
     (exists s0, Flags l !! k = Some (Some s0) /\ s_cap s0 <> 0 /\ s_arr s = s_arr s0) \/
     arrays l !! s_arr s = None) ->
  owned (mkLauncher (<[k := v]> (Flags l)) p i h') /\
  forall k' w, k' <> k -> Flags l !! k' = Some w -> elems h' w = elems (arrays l) w.
Proof.
  intros [Hwithin Hsep] Hlen Hsame Hv Horigin.
  assert (Hapart : forall s k' s', v = Some s -> s_cap s <> 0 -> k' <> k ->
            Flags l !! k' = Some (Some s') -> s_cap s' <> 0 -> s_arr s' <> s_arr s).
  { intros s k' s' -> Hc Hk Hs' Hc' Harr.
    destruct (Horigin s eq_refl Hc) as [(s0 & Hs0 & Hc0 & Harr0) | Hnew].
    - destruct (Hsep k' k s' s0 Hk Hs' Hs0) as [? | [? | ?]]; congruence.
    - destruct (Hwithin k' s' Hs') as [_ [? | [Hin _]]]; [done |].
      rewrite Harr, Hnew in Hin. by destruct Hin. }
  split; [split |].
  - intros k' s'. cbn [Flags arrays]. destruct (decide (k' = k)) as [-> | Hk].
    + rewrite lookup_insert_eq. intros [= ->]. by apply Hv.
    + rewrite lookup_insert_ne by done. intros Hs'. eapply within_same; [exact Hlen |]. eauto.
  - intros k1 k2 s1 s2 Hk. cbn [Flags].
    destruct (decide (k1 = k)) as [-> | Hk1]; [| destruct (decide (k2 = k)) as [-> | Hk2]].
    + rewrite lookup_insert_eq, lookup_insert_ne by done. intros [= ->] Hs2.
      destruct (decide (s_cap s1 = 0)); [by left |].
      destruct (decide (s_cap s2 = 0)); [by right; left |].
      right; right. intros Harr. by apply (Hapart s1 k2 s2 eq_refl).
    + rewrite lookup_insert_eq, lookup_insert_ne by done. intros Hs1 [= ->].
      destruct (decide (s_cap s1 = 0)); [by left |].
      destruct (decide (s_cap s2 = 0)); [by right; left |].
      right; right. by apply (Hapart s2 k1 s1 eq_refl).
    + rewrite !lookup_insert_ne by done. by apply Hsep.
  - intros k' [s' |] Hk Hs'; [| done]. apply elems_same; [by eapply Hwithin |].
    intros Hc'. apply Hsame.
    + by destruct (Hwithin k' s' Hs') as [_ [? | [? _]]].
    + intros s Hvs Hc. by eapply Hapart.
Qed.

Lemma owned_delete l k p i : owned l -> owned (mkLauncher (delete k (Flags l)) p i (arrays l)).
Proof.
  intros [Hwithin Hsep]. split; cbn [Flags arrays].
  - intros k' s' Hs'. apply lookup_delete_Some in Hs' as [_ Hs']. eauto.
  - intros k1 k2 s1 s2 Hk [_ Hs1]%lookup_delete_Some [_ Hs2]%lookup_delete_Some. eauto.
Qed.

Lemma go_literal_spec h xs :
  let s := (go_literal h xs).1 in
  let h' := (go_literal h xs).2 in
  elems h' (Some s) = xs /\ within h' s /\ h !! s_arr s = None /\
  (forall a, is_Some (h !! a) -> h' !! a = h !! a).
Proof.
  unfold go_literal. cbn [fst snd]. set (a := fresh (dom h)).
  assert (Ha : h !! a = None) by (apply not_elem_of_dom, is_fresh).
  split_and!.
  - unfold elems, array. cbn [s_arr s_off s_len]. rewrite lookup_insert_eq. simpl.
    by rewrite take_ge.
  - split; cbn [s_len s_cap s_arr s_off]; [done |]. right. unfold array.
    by rewrite lookup_insert_eq.
  - done.
  - intros a' Ha'. apply lookup_insert_ne. intros <-. rewrite Ha in Ha'. by destruct Ha'.
Qed.

Lemma owned_literal l k xs p i :
  owned l ->
  owned (mkLauncher (<[k := Some (go_literal (arrays l) xs).1]> (Flags l)) p i
           (go_literal (arrays l) xs).2) /\
  forall k' w, k' <> k -> Flags l !! k' = Some w ->
               elems (go_literal (arrays l) xs).2 w = elems (arrays l) w.
Proof.
  intros Ho. destruct (go_literal_spec (arrays l) xs) as (Hx & Hw & Hnew & Hsame).
  apply owned_update; [done | | | |].
  - intros a Ha. unfold array. rewrite (Hsame a Ha). by split.
  - intros a Ha _. by apply Hsame.
  - by intros s [= <-].
  - intros s [= <-] _. by right.
Qed.

Lemma owned_nil l k p i :
  owned l -> owned (mkLauncher (<[k := None]> (Flags l)) p i (arrays l)).
Proof. intros Ho. by apply owned_update. Qed.

Lemma owned_same l l' :
  owned l -> Flags l' = Flags l ->
  (forall a, is_Some (arrays l !! a) ->
             is_Some (arrays l' !! a) /\ length (array (arrays l') a) = length (array (arrays l) a)) ->
  owned l'.
Proof.
  intros [Hwithin Hsep] HF Hh. split; rewrite HF; [| done].
  intros k s Hs. eapply within_same; [exact Hh |]. eauto.
Qed.

Lemma owned_empty p i : owned (mkLauncher ∅ p i ∅).
Proof. split; cbn [Flags]; intros *; by rewrite ?lookup_empty. Qed.

Lemma owned_literal_entry st kv p i :
  owned (mkLauncher st.1 p i st.2) ->
  owned (mkLauncher (literal_entry st kv).1 p i (literal_entry st kv).2).
Proof.
  intros Ho. unfold literal_entry. destruct kv as [k [xs |]]; cbn [fst snd].
  - destruct (owned_literal _ k xs p i Ho) as [Ho' _]. cbn [Flags arrays] in Ho'.
    by destruct (go_literal st.2 xs).
  - by apply (owned_nil (mkLauncher st.1 p i st.2)).
Qed.

Lemma owned_map_literal kvs p i :
  owned (mkLauncher (map_literal kvs).1 p i (map_literal kvs).2).
Proof.
  unfold map_literal.
  assert (Hgen : forall st, owned (mkLauncher st.1 p i st.2) ->
            owned (mkLauncher (foldl literal_entry st kvs).1 p i (foldl literal_entry st kvs).2)).
  { induction kvs as [| kv kvs IH]; intros st Ho; simpl; [done |].
    by apply IH, owned_literal_entry. }
  apply Hgen, owned_empty.
Qed.

Section setters_facts.
Context `{flags.Pkg} `{flags'.Names}.
Variable growcap : nat -> nat -> nat.

Lemma Set_values_spec name xs l :
  flags.Check name = true ->
  exists v h,
    Set_values name xs l
    = (Ret tt, mkLauncher (<[flags.NormalizeFlag name := v]> (Flags l)) (pid l) (isLaunched l) h) /\
    elems h v = xs /\ (v = None <-> xs = []) /\
    (forall a, is_Some (arrays l !! a) -> h !! a = arrays l !! a).
Proof.
  intros Hc. unfold Set_values, Set_. rewrite Hc. destruct xs as [| x xs].
  - exists None, (arrays l). split_and!; done.
  - exists (Some (Slice (fresh (dom (arrays l))) 0 (length (x :: xs)) (length (x :: xs)))),
      (<[fresh (dom (arrays l)) := x :: xs]> (arrays l)).
    unfold go_literal. split_and!; try done.
    + unfold elems, array. cbn [s_arr s_off s_len]. rewrite lookup_insert_eq. simpl.
      by rewrite take_ge.
    + intros a Ha. apply lookup_insert_ne. intros <-.
      apply (is_fresh (dom (arrays l))). by apply elem_of_dom.
Qed.

Lemma Has_Delete name l : Has name (Delete name l).2 = (Ret false, (Delete name l).2).
Proof.
  rewrite Has_spec. unfold Delete. cbn [snd Flags with_Flags]. rewrite lookup_delete_eq.
  rewrite bool_decide_eq_false_2; [done |]. by intros [? ?].
Qed.

Lemma Get_Delete name l : Get name (Delete name l).2 = (Ret ""%string, (Delete name l).2).
Proof. apply Get_absent. unfold Delete. cbn [snd Flags with_Flags]. apply lookup_delete_eq. Qed.

Lemma Get_Set_values name x xs l :
  flags.Check name = true ->
  (Set_values name (x :: xs) l).1 = Ret tt /\
  Get name (Set_values name (x :: xs) l).2 = (Ret x, (Set_values name (x :: xs) l).2) /\
  Has name (Set_values name (x :: xs) l).2 = (Ret true, (Set_values name (x :: xs) l).2).
Proof.
  intros Hc. destruct (Set_values_spec name (x :: xs) l Hc) as (v & h & -> & Hv & _ & _).
  cbn [fst snd]. split_and!; [done | |].
  - eapply Get_first; [apply lookup_insert_eq |]. cbn [arrays]. by rewrite Hv.
  - rewrite Has_spec. cbn [Flags]. rewrite lookup_insert_eq. by rewrite bool_decide_eq_true_2.
Qed.

(** X8: [Delete] never panics, whatever the name; after it the flag is
    absent ([Has] is false and [Get] returns the empty string), the other
    flags are as before, deleting again changes nothing, and a [Delete]
    undoes a [Set] of a flag that was absent. *)
Theorem Delete_removes_the_flag name (l : Launcher) :
  let l' := (Delete name l).2 in
  (Delete name l).1 = Ret tt /\
  Has name l' = (Ret false, l') /\ Get name l' = (Ret ""%string, l') /\
  (forall k, flags.NormalizeFlag k <> flags.NormalizeFlag name ->
             GetFlags k l' = ((GetFlags k l).1, l') /\ (Get k l').1 = (Get k l).1) /\
  Delete name l' = (Ret tt, l') /\
  (forall v, (Has name l).1 = Ret false -> flags.Check name = true ->
             Flags (Delete name (Set_ name v l).2).2 = Flags l).
Proof.
  intros l'. subst l'. split_and!.
  - done.
  - apply Has_Delete.
  - apply Get_Delete.
  - intros k Hk. unfold Delete, Get, GetFlags. cbn [fst snd Flags with_Flags arrays].
    rewrite lookup_delete_ne by done.
    by destruct (Flags l !! flags.NormalizeFlag k) as [v |].
  - unfold Delete, with_Flags. cbn [fst snd Flags pid isLaunched arrays].
    by rewrite delete_delete_eq.
  - intros v Hhas Hc. rewrite Has_spec in Hhas. cbn [fst] in Hhas.
    injection Hhas as Hhas. apply bool_decide_eq_false in Hhas.
    unfold Delete, Set_. rewrite Hc. cbn [fst snd Flags with_Flags].
    rewrite delete_insert_eq. apply delete_id. by apply eq_None_not_Some.
Qed.

(** X9: the setters of a directory take the empty string for no
    directory: after [UserDataDir(dir)], [Get] returns [dir], for the empty
    [dir] as for any other, and the flag is present exactly when [dir] is
    not empty; the same holds of [ProfileDir]. *)
Theorem UserDataDir_round_trip dir (l : Launcher) :
  flags.Check flags.UserDataDir = true -> flags.Check flags.ProfileDir = true ->
  (let l' := (UserDataDir dir l).2 in
   (UserDataDir dir l).1 = Ret tt /\
   Get flags.UserDataDir l' = (Ret dir, l') /\
   Has flags.UserDataDir l' = (Ret (bool_decide (dir <> ""%string)), l')) /\
  (let l' := (ProfileDir dir l).2 in
   (ProfileDir dir l).1 = Ret tt /\
   Get flags.ProfileDir l' = (Ret dir, l') /\
   Has flags.ProfileDir l' = (Ret (bool_decide (dir <> ""%string)), l')).
Proof.
  intros Hu Hp.
  assert (Hgen : forall name, flags.Check name = true ->
    let m := if decide (dir = ""%string) then Delete name else Set_values name [dir] in
    (m l).1 = Ret tt /\ Get name (m l).2 = (Ret dir, (m l).2) /\
    Has name (m l).2 = (Ret (bool_decide (dir <> ""%string)), (m l).2)).
  { intros name Hc. cbv zeta. destruct (decide (dir = ""%string)) as [-> | Hne].
    - rewrite bool_decide_eq_false_2 by (by intros ?).
      split_and!; [done | apply Get_Delete | apply Has_Delete].
    - rewrite bool_decide_eq_true_2 by done. by apply Get_Set_values. }
  split; [apply (Hgen _ Hu) | apply (Hgen _ Hp)].
Qed.

(** X10: [Headless] and [HeadlessNew] write one and the same flag, and the
    call made last decides: either of them with [false] removes the flag
    whichever of them has set it, [Headless(true)] turns a
    [--headless=new] into [--headless], and [HeadlessNew(true)] the other
    way round. *)
Theorem Headless_last_call_decides (b : bool) (l : Launcher) :
  flags.Check flags'.Headless = true ->
  let k := flags.NormalizeFlag flags'.Headless in
  Has flags'.Headless (Headless false (HeadlessNew b l).2).2
    = (Ret false, (Headless false (HeadlessNew b l).2).2) /\
  Has flags'.Headless (HeadlessNew false (Headless b l).2).2
    = (Ret false, (HeadlessNew false (Headless b l).2).2) /\
  (let l' := (Headless true (HeadlessNew b l).2).2 in
   Flags l' = <[k := None]> (Flags l) /\ format_flag (arrays l') k None = ("--" +:+ k)%string) /\
  (let l' := (HeadlessNew true (Headless b l).2).2 in
   exists s, Flags l' = <[k := Some s]> (Flags l) /\
             format_flag (arrays l') k (Some s) = ("--" +:+ k +:+ "=new")%string).
Proof.
  intros Hc k. split_and!.
  - apply Has_Delete.
  - apply Has_Delete.
  - cbv zeta. split; [| done]. unfold Headless, HeadlessNew, Set_values, Delete, Set_.
    rewrite Hc. destruct b; cbn [fst snd Flags with_Flags with_arrays go_literal];
      rewrite ?Hc; cbn [fst snd Flags with_Flags with_arrays].
    + apply insert_insert_eq.
    + apply insert_delete_eq.
  - cbv zeta. unfold Headless, HeadlessNew.
    destruct (Set_values_spec flags'.Headless ["new"%string]
                (if b then Set_values flags'.Headless [] l else Delete flags'.Headless l).2 Hc)
      as (v & h & Hset & Hv & Hnil & _).
    destruct v as [s |]; [| by destruct (proj1 Hnil)].
    exists s. destruct b; rewrite Hset; cbn [snd Flags arrays]; (split; [| unfold format_flag; by rewrite Hv]).
    + unfold Set_values, Set_. rewrite Hc. cbn [snd Flags with_Flags]. apply insert_insert_eq.
    + unfold Delete. cbn [snd Flags with_Flags]. apply insert_delete_eq.
Qed.

Lemma with_eta l : mkLauncher (Flags l) (pid l) (isLaunched l) (arrays l) = l.
Proof. by destruct l. Qed.

Lemma owned_Delete name l : owned l -> owned (Delete name l).2.
Proof. intros Ho. unfold Delete, with_Flags. cbn [snd]. by apply owned_delete. Qed.

Lemma Set_values_owned name xs l :
  owned l ->
  owned (Set_values name xs l).2 /\
  forall k w, k <> flags.NormalizeFlag name -> Flags l !! k = Some w ->
              elems (arrays (Set_values name xs l).2) w = elems (arrays l) w.
Proof.
  intros Ho. unfold Set_values, Set_. destruct xs as [| x xs].
  - destruct (flags.Check name); cbn [snd]; [| done]. split; [| done].
    unfold with_Flags. by apply owned_nil.
  - destruct (owned_literal l (flags.NormalizeFlag name) (x :: xs) (pid l) (isLaunched l) Ho)
      as [Ho' Hframe].
    destruct (go_literal_spec (arrays l) (x :: xs)) as (_ & _ & _ & Hsame).
    destruct (go_literal (arrays l) (x :: xs)) as [s h]. cbn [fst snd] in *.
    destruct (flags.Check name); cbn [snd]; [split; [exact Ho' | exact Hframe] |]. split.
    + eapply owned_same; [exact Ho | reflexivity |]. cbn [arrays with_arrays].
      intros a Ha. unfold array. rewrite (Hsame a Ha). by split.
    + intros k w Hk Hw. cbn [arrays with_arrays]. by apply (Hframe k).
Qed.

Lemma Append_owned name values l :
  owned l ->
  owned (Append growcap name values l).2 /\
  (flags.Check name = true ->
   (Append growcap name values l).1 = Ret tt /\
   (exists vs, Flags (Append growcap name values l).2
               = <[flags.NormalizeFlag name := vs]> (Flags l) /\
               elems (arrays (Append growcap name values l).2) vs
               = elems (arrays l) (default None (Flags l !! flags.NormalizeFlag name))
                 ++ elems (arrays l) values) /\
   forall k w, k <> flags.NormalizeFlag name -> Flags l !! k = Some w ->
               elems (arrays (Append growcap name values l).2) w = elems (arrays l) w).
Proof.
  intros Ho. unfold Append, GetFlags.
  set (k := flags.NormalizeFlag name).
  set (flags1 := match Flags l !! k with Some fl => fl | None => Some (Slice 0 0 0 0) end).
  assert (Hflags1 : forall s, flags1 = Some s -> within (arrays l) s).
  { intros s Hs. subst flags1. destruct (Flags l !! k) as [fl |] eqn:Hk.
    - subst fl. by apply (proj1 Ho k).
    - injection Hs as <-. split; [done | by left]. }
  assert (Helems : elems (arrays l) flags1 = elems (arrays l) (default None (Flags l !! k))).
  { subst flags1. by destruct (Flags l !! k). }
  pose proof (go_append_spec growcap (arrays l) flags1 (elems (arrays l) values) Hflags1)
    as (Hcontent & Hwithin & Hsame & Horigin & Hlen).
  cbv zeta in *.
  set (vs := (go_append growcap (arrays l) flags1 (elems (arrays l) values)).1) in *.
  set (h := (go_append growcap (arrays l) flags1 (elems (arrays l) values)).2) in *.
  destruct (owned_update l k vs h (pid l) (isLaunched l) Ho Hlen Hsame Hwithin) as [Ho' Hframe].
  { intros s Hs Hc. destruct (Horigin s Hs Hc) as [(s0 & Hs0 & Hc0 & Harr) | Hnew]; [| by right].
    left. exists s0. split_and!; [| done ..]. subst flags1.
    destruct (Flags l !! k) as [fl |]; [by subst fl |]. by injection Hs0 as <-. }
  assert (Hrun : (let '(vs0, h0) := go_append growcap (arrays l) flags1 (elems (arrays l) values)
                  in Set_ name vs0 (with_arrays h0 l))
                 = Set_ name vs (with_arrays h l)).
  { subst vs h. by destruct (go_append _ _ _ _). }
  assert (Hgoal :
    owned (Set_ name vs (with_arrays h l)).2 /\
    (flags.Check name = true ->
     (Set_ name vs (with_arrays h l)).1 = Ret tt /\
     (exists vs0, Flags (Set_ name vs (with_arrays h l)).2 = <[k := vs0]> (Flags l) /\
                  elems (arrays (Set_ name vs (with_arrays h l)).2) vs0
                  = elems (arrays l) (default None (Flags l !! k)) ++ elems (arrays l) values) /\
     forall k' w, k' <> k -> Flags l !! k' = Some w ->
                  elems (arrays (Set_ name vs (with_arrays h l)).2) w = elems (arrays l) w)).
  { unfold Set_. fold k. destruct (flags.Check name); cbn [fst snd].
    - split; [exact Ho' |]. intros _. split_and!; [done | | exact Hframe].
      exists vs. split; [done |]. cbn [arrays with_Flags with_arrays]. by rewrite Hcontent, Helems.
    - split; [| done]. eapply owned_same; [exact Ho | reflexivity | exact Hlen]. }
  destruct (Flags l !! k) as [fl |] eqn:Hk; cbn [fst snd]; subst flags1; by rewrite Hrun.
Qed.

Lemma then_owned (m1 m2 : method unit) :
  (forall l, owned l -> owned (m1 l).2) -> (forall l, owned l -> owned (m2 l).2) ->
  forall l, owned l -> owned (then_ m1 m2 l).2.
Proof.
  intros H1 H2 l Ho. unfold then_. specialize (H1 l Ho).
  destruct (m1 l) as [[[] | p] l1]; cbn [snd] in *; [by apply H2 | done].
Qed.

Lemma New_owned_aux d tmp : owned (New d tmp).
Proof.
  unfold New. cbv zeta.
  pose proof (owned_map_literal
    (New_literal d (if decide (defaults.Dir d = ""%string) then tmp else defaults.Dir d)) 0 0) as Ho.
  destruct (map_literal _) as [fl h]. cbn [fst snd] in Ho.
  match goal with
  | |- owned (let '(_, _) := if _ then literal_entry (?X, _) _ else _ in _) =>
      assert (HoX : owned (mkLauncher X 0 0 h)); [| generalize dependent X; intros fl' HoX]
  end.
  { destruct (defaults.Show d), (defaults.Devtools d), (defaults.inContainer d);
      repeat first
        [ exact Ho
        | apply (owned_nil (mkLauncher _ 0 0 h))
        | apply (owned_delete (mkLauncher _ 0 0 h)) ]. }
  destruct (decide (defaults.Proxy d <> ""%string)); [| done].
  pose proof (owned_literal_entry (fl', h) (flags'.ProxyServer, Some [defaults.Proxy d]) 0 0 HoX)
    as Ho'.
  by destruct (literal_entry _ _).
Qed.

Lemma NewUserMode_owned_aux bin : owned (NewUserMode bin).
Proof.
  unfold NewUserMode.
  pose proof (owned_map_literal
    [ (flags.RemoteDebuggingPort, Some ["37712"%string]);
      ("no-startup-window"%string, None); (flags.Bin, Some [bin]) ] 0 0) as Ho.
  by destruct (map_literal _).
Qed.

Lemma Set_values_owned_1 name xs l : owned l -> owned (Set_values name xs l).2.
Proof. intros Ho. by apply Set_values_owned. Qed.

(** X11: a launcher does not share arrays between its flags when it is
    made by [New], [NewUserMode] or [NewAppMode], and it stays so under
    [Set] and the setters that call it with values of their own, under
    [Delete] and under [Append], also where one of them panics on the name
    of the flag. *)
Theorem constructors_and_setters_owned d tmp bin u name xs values l :
  owned (New d tmp) /\ owned (NewUserMode bin) /\ owned (NewAppMode d tmp u).2 /\
  (owned l ->
   owned (Set_values name xs l).2 /\ owned (Delete name l).2 /\
   owned (Append growcap name values l).2).
Proof.
  split_and!.
  - apply New_owned_aux.
  - apply NewUserMode_owned_aux.
  - unfold NewAppMode, Headless.
    repeat apply then_owned;
      auto using Set_values_owned_1, owned_Delete, New_owned_aux.
  - intros Ho. split_and!.
    + by apply Set_values_owned.
    + by apply owned_Delete.
    + by apply Append_owned.
Qed.

(** X12: on a launcher that does not share arrays between its flags,
    [Append] returns with the old values of the flag followed by the new
    ones (the new ones alone for a flag that was absent or nil), and [Set]
    with the values given; either of them leaves the values of every other
    flag as they were. *)
Theorem Append_appends_values name values xs l :
  owned l -> flags.Check name = true ->
  let k := flags.NormalizeFlag name in
  (let l' := (Append growcap name values l).2 in
   (Append growcap name values l).1 = Ret tt /\
   (exists vs, Flags l' = <[k := vs]> (Flags l) /\
      elems (arrays l') vs
      = elems (arrays l) (default None (Flags l !! k)) ++ elems (arrays l) values) /\
   forall k' w, k' <> k -> Flags l !! k' = Some w -> elems (arrays l') w = elems (arrays l) w) /\
  (let l' := (Set_values name xs l).2 in
   (Set_values name xs l).1 = Ret tt /\
   (exists vs, Flags l' = <[k := vs]> (Flags l) /\ elems (arrays l') vs = xs) /\
   forall k' w, k' <> k -> Flags l !! k' = Some w -> elems (arrays l') w = elems (arrays l) w).
Proof.
  intros Ho Hc k. split.
  - by apply Append_owned.
  - cbv zeta. destruct (Set_values_spec name xs l Hc) as (v & h & Hset & Hv & _ & _).
    split_and!.
    + by rewrite Hset.
    + exists v. by rewrite Hset.
    + by apply Set_values_owned.
Qed.


End setters_facts.

(** ** [FormatArgs] again, [Cleanup], [MustLaunch] *)


Section FormatArgs_Cleanup_MustLaunch.
Context `{flags.Pkg}.


(** X14: the order in which [range] visits the flags does not show in
    what [FormatArgs] returns or leaves, when no other flag shares the
    cell it rewrites: two environments that agree on the absolute paths
    give the same run. *)
Theorem FormatArgs_order_independent (env1 env2 : Environment) l tr :
  UserDataDir_unshared l ->
  (forall x, env1 (tr ++ [RangeFlags]) (FilepathAbs x) = env2 (tr ++ [RangeFlags]) (FilepathAbs x)) ->
  run env1 FormatArgs l tr = run env2 FormatArgs l tr.
Proof.
  intros Hun Henv. rewrite !run_FormatArgs by done.
  destruct (if public flags.UserDataDir then Flags l !! flags.UserDataDir else None) as [u |];
    [| done].
  destruct (elems (arrays l) u !! 0) as [x |]; [| done]. by rewrite Henv.
Qed.



(** X17: [MustLaunch] on a launcher on which [MustLaunch] has run panics
    with [ErrAlreadyLaunched], whatever happened in the first run: it makes
    no request and leaves the launcher as it finds it. *)
Theorem MustLaunch_only_once (env env' : Environment) l tr tr' :
  let l1 := (run env MustLaunch l tr).1.2 in
  run env' MustLaunch l1 tr' = (Panicked_with ErrAlreadyLaunched, l1, tr').
Proof.
  intros l1.
  assert (Hsame : l1 = (run env Launch l tr).1.2).
  { subst l1. unfold MustLaunch. rewrite run_bind.
    by destruct (run env Launch l tr).1.1 as [[u [err |]] | p]. }
  assert (Hl1 : isLaunched l1 <> 0%Z).
  { rewrite Hsame. destruct (decide (isLaunched l = 0%Z)) as [Hl | Hl].
    - rewrite run_Launch_first by done.
      by rewrite keeps_latch_run by apply keeps_latch_Launch_passed.
    - by rewrite run_Launch_again. }
  unfold MustLaunch. rewrite run_bind. by rewrite run_Launch_again.
Qed.

End FormatArgs_Cleanup_MustLaunch.

(** ** [IgnoreCerts] *)

Section IgnoreCerts_facts.
Context `{flags.Pkg}.
Variable growcap : nat -> nat -> nat.
Variable PublicKey : Type.
Variable certSPKI : PublicKey -> result string.

(** The loop over keys that all have an SPKI, into a slice with room. *)
Lemma IgnoreCerts_range_app pre rest spkis done a n h :
  Forall2 (fun pk spki => certSPKI pk = Ok spki) pre spkis ->
  length done + length pre <= n ->
  h !! a = Some (done ++ replicate (n - length done) ""%string) ->
  IgnoreCerts_range growcap PublicKey certSPKI (pre ++ rest)
    (Some (Slice a 0 (length done) n)) h
  = IgnoreCerts_range growcap PublicKey certSPKI rest
      (Some (Slice a 0 (length (done ++ spkis)) n))
      (<[a := (done ++ spkis) ++ replicate (n - length (done ++ spkis)) ""%string]> h).
Proof.
  intros Hall. revert done h.
  induction Hall as [| pk spki pre spkis Hpk _ IH]; intros done h Hn Ha.
  - rewrite !app_nil_r. simpl. by rewrite insert_id.
  - simpl in *. rewrite Hpk. unfold go_append. cbn [slen scap s_len s_cap length].
    rewrite decide_True by lia. cbn [s_arr s_off s_len s_cap].
    assert (Hw : write_at (0 + length done) [spki] (array h a)
                 = (done ++ [spki]) ++ replicate (n - length (done ++ [spki])) ""%string).
    { unfold array, write_at. rewrite Ha. simpl.
      rewrite take_app_length, drop_app_ge, length_app by lia. simpl.
      replace (length done + 1 - length done) with 1 by lia.
      replace (n - length done) with (S (n - (length done + 1))) by lia.
      simpl. by rewrite <- app_assoc. }
    rewrite Hw.
    replace (length done + 1) with (length (done ++ [spki])) by (rewrite length_app; simpl; lia).
    rewrite IH.
    + rewrite insert_insert_eq. by rewrite <- !app_assoc.
    + rewrite length_app. simpl. lia.
    + by rewrite lookup_insert_eq.
Qed.

Lemma go_make_spec h n :
  let s := (go_make h n).1 in
  let h' := (go_make h n).2 in
  s = Slice (s_arr s) 0 0 n /\ h !! s_arr s = None /\
  h' = <[s_arr s := replicate n ""%string]> h.
Proof.
  unfold go_make. cbn [fst snd s_arr]. split_and!; [done | | done].
  apply not_elem_of_dom, is_fresh.
Qed.

(** X18: [IgnoreCerts] sets the flag to the SPKIs of all the keys, in
    their order, or to nothing at all: where [certSPKI] fails on a key it
    returns that error, wrapped, and leaves every flag as it was, the one
    it would have set included.  With no key at all it sets the flag to an
    empty list that is not nil.  Either way the arrays the launcher had are
    as before. *)
Theorem IgnoreCerts_all_or_nothing (l : Launcher) :
  let name := "ignore-certificate-errors-spki-list"%string in
  (forall pks spkis,
     Forall2 (fun pk spki => certSPKI pk = Ok spki) pks spkis ->
     flags.Check name = true ->
     let l' := (IgnoreCerts growcap PublicKey certSPKI pks l).2 in
     (IgnoreCerts growcap PublicKey certSPKI pks l).1 = Ret None /\
     (exists s, Flags l' = <[flags.NormalizeFlag name := Some s]> (Flags l) /\
                elems (arrays l') (Some s) = spkis) /\
     forall a, is_Some (arrays l !! a) -> arrays l' !! a = arrays l !! a) /\
  (forall pre pk post spkis e,
     Forall2 (fun pk spki => certSPKI pk = Ok spki) pre spkis ->
     certSPKI pk = Err e ->
     let l' := (IgnoreCerts growcap PublicKey certSPKI (pre ++ pk :: post) l).2 in
     (IgnoreCerts growcap PublicKey certSPKI (pre ++ pk :: post) l).1
     = Ret (Some (certSPKI_error e)) /\
     Flags l' = Flags l /\
     forall a, is_Some (arrays l !! a) -> arrays l' !! a = arrays l !! a).
Proof.
  intros name. split.
  - intros pks spkis Hall Hc. cbv zeta. unfold IgnoreCerts.
    destruct (go_make_spec (arrays l) (length pks)) as (Hs & Hnew & Hh).
    destruct (go_make (arrays l) (length pks)) as [s h]. cbn [fst snd] in *.
    rewrite Hs, Hh.
    pose proof (IgnoreCerts_range_app pks [] spkis [] (s_arr s) (length pks)
                  (<[s_arr s := replicate (length pks) ""%string]> (arrays l)) Hall) as Hrun.
    rewrite app_nil_r in Hrun. simpl in Hrun. rewrite Nat.sub_0_r in Hrun.
    rewrite Hrun by (by rewrite ?lookup_insert_eq). clear Hrun.
    rewrite insert_insert_eq. unfold Set_. fold name. rewrite Hc. cbn [fst snd].
    split_and!; [done | |].
    + eexists. split; [reflexivity |]. cbn [arrays with_Flags with_arrays].
      unfold elems, array. cbn [s_arr s_off s_len]. rewrite lookup_insert_eq. simpl.
      rewrite (Forall2_length _ _ _ Hall), Nat.sub_diag, drop_0. simpl.
      by rewrite app_nil_r, firstn_all.
    + intros a Ha. cbn [arrays with_Flags with_arrays]. apply lookup_insert_ne.
      intros <-. rewrite Hnew in Ha. by destruct Ha.
  - intros pre pk post spkis e Hall Hpk. cbv zeta. unfold IgnoreCerts.
    destruct (go_make_spec (arrays l) (length (pre ++ pk :: post))) as (Hs & Hnew & Hh).
    destruct (go_make (arrays l) (length (pre ++ pk :: post))) as [s h]. cbn [fst snd] in *.
    rewrite Hs, Hh.
    pose proof (IgnoreCerts_range_app pre (pk :: post) spkis [] (s_arr s)
                  (length (pre ++ pk :: post))
                  (<[s_arr s := replicate (length (pre ++ pk :: post)) ""%string]> (arrays l))
                  Hall) as Hrun.
    simpl in Hrun. rewrite Nat.sub_0_r in Hrun.
    rewrite Hrun by (rewrite ?lookup_insert_eq, ?length_app; simpl; done || lia). clear Hrun.
    simpl. rewrite Hpk. cbn [fst snd Flags arrays with_arrays].
    split_and!; [done | done |].
    intros a Ha. rewrite insert_insert_eq. apply lookup_insert_ne.
    intros <-. rewrite Hnew in Ha. by destruct Ha.
Qed.

End IgnoreCerts_facts.

(** ** The setters and the rest on concrete launchers *)

(** [UserDataDir("data")] on [l_demo]. *)
Lemma UserDataDir_round_trip_witness :
  let l' := (UserDataDir "data" l_demo).2 in
  flags.Check flags.UserDataDir = true /\
  Get flags.UserDataDir l' = (Ret "data"%string, l').
Proof.
  intros l'. split; [reflexivity |].
  exact (proj1 (proj2 (proj1 (UserDataDir_round_trip "data" l_demo eq_refl eq_refl)))).
Defined.

(** [HeadlessNew(false)] after [Headless(true)] on [l_demo]. *)
Lemma Headless_last_call_decides_witness :
  flags.Check flags'.Headless = true /\
  Has flags'.Headless (HeadlessNew false (Headless true l_demo).2).2
  = (Ret false, (HeadlessNew false (Headless true l_demo).2).2).
Proof.
  split; [reflexivity |].
  exact (proj1 (proj2 (Headless_last_call_decides true l_demo eq_refl))).
Defined.

(** [Append] of a second port value on [NewUserMode()], with a runtime
    that grows a slice to the size needed. *)
Lemma Append_appends_values_witness :
  let l := NewUserMode "chrome" in
  let l1 := (Set_values "x" ["1"; "2"]%string l).2 in
  let k := flags.NormalizeFlag flags.RemoteDebuggingPort in
  owned l /\
  exists vs, Flags (Append (fun _ n => n) flags.RemoteDebuggingPort
                      (Flags l1 !!! "x"%string) l1).2
             = <[k := vs]> (Flags l1) /\
             elems (arrays (Append (fun _ n => n) flags.RemoteDebuggingPort
                              (Flags l1 !!! "x"%string) l1).2) vs
             = ["37712"; "1"; "2"]%string.
Proof.
  intros l l1 k.
  assert (Ho : owned l) by apply NewUserMode_owned_aux.
  assert (Ho1 : owned l1) by (by apply Set_values_owned).
  split; [exact Ho |].
  assert (Hc : flags.Check flags.RemoteDebuggingPort = true) by reflexivity.
  destruct (proj1 (Append_appends_values (fun _ n => n) flags.RemoteDebuggingPort
                     (Flags l1 !!! "x"%string) [] l1 Ho1 Hc))
    as (_ & (vs & HF & Hvs) & _).
  exists vs. split; [exact HF |]. rewrite Hvs. reflexivity.
Defined.


(** Two orders of [range] on a launcher with a relative [user-data-dir]. *)
Lemma FormatArgs_order_independent_witness :
  let l := new_launcher [("a", Some ["1"]); ("user-data-dir", Some ["data"])]%string in
  UserDataDir_unshared l /\
  run (environment answers) FormatArgs l []
  = run (environment (with_RangeFlags [1] answers)) FormatArgs l [].
Proof.
  intros l.
  assert (Hun : UserDataDir_unshared l) by (apply (bool_decide_unpack _); vm_compute; exact I).
  split; [exact Hun |].
  apply (FormatArgs_order_independent (environment answers)
           (environment (with_RangeFlags [1] answers)) l [] Hun).
  reflexivity.
Defined.



(** [IgnoreCerts] on [NewUserMode()], with string keys of which one has
    no SPKI. *)
Lemma IgnoreCerts_all_or_nothing_witness :
  let certSPKI := fun pk : string =>
    if String.eqb pk "bad" then Err "no key"%string else Ok ("spki:" ++ pk)%string in
  let l := NewUserMode "chrome" in
  let good := IgnoreCerts (fun _ n => n) string certSPKI ["a"; "b"]%string l in
  let bad := IgnoreCerts (fun _ n => n) string certSPKI ["a"; "bad"; "c"]%string l in
  (good.1 = Ret None /\
   exists s, Flags good.2
             = <[flags.NormalizeFlag "ignore-certificate-errors-spki-list" := Some s]> (Flags l) /\
             elems (arrays good.2) (Some s) = ["spki:a"; "spki:b"]%string) /\
  bad.1 = Ret (Some (certSPKI_error "no key")) /\ Flags bad.2 = Flags l.
Proof.
  intros certSPKI l good bad.
  destruct (IgnoreCerts_all_or_nothing (fun _ n => n) string certSPKI l) as [Hgood Hbad].
  split.
  - assert (Hall : Forall2 (fun pk spki => certSPKI pk = Ok spki)
                     ["a"; "b"]%string ["spki:a"; "spki:b"]%string)
      by (repeat constructor).
    destruct (Hgood _ _ Hall eq_refl) as (Hr & Hs & _). split; [exact Hr | exact Hs].
  - assert (Hall : Forall2 (fun pk spki => certSPKI pk = Ok spki) ["a"%string] ["spki:a"%string])
      by (repeat constructor).
    destruct (Hbad ["a"%string] "bad"%string ["c"%string] _ "no key"%string Hall eq_refl)
      as (Hr & HF & _).
    split; [exact Hr | exact HF].
Defined.
